(** * The Prometheus rule-group handler of grizzly ([pkg/mimir/rules-handler.go])

    A shallow embedding of the handler and the facts established about it.
    Go strings are byte strings ([string]); Go maps are finite maps
    ([gmap]); a Go map held in an [interface{}] is a reference, so the maps
    that the handler writes to live in an explicit store and values carry
    their address. Calls to the remote client are recorded in a trace. *)

From Stdlib Require Import Ascii String.
From stdpp Require Import gmap strings list fin_maps.

Set Warnings "-register-all".
Open Scope string_scope.
Open Scope list_scope.

(** ** Package [strings], as far as the handler uses it *)
Module Strings.

(** [strings.ReplaceAll s old new] for a pattern [old] of one byte, which
    is what [string(os.PathSeparator)] is. *)
Fixpoint ReplaceAll (s : string) (old : ascii) (new : string) : string :=
  match s with
  | EmptyString => EmptyString
  | String c s' =>
      if Ascii.eqb c old then new +:+ ReplaceAll s' old new
      else String c (ReplaceAll s' old new)
  end.

(** The text before and after the first occurrence of [sep], if any. *)
Fixpoint Cut (s : string) (sep : ascii) : option (string * string) :=
  match s with
  | EmptyString => None
  | String c s' =>
      if Ascii.eqb c sep then Some (EmptyString, s')
      else match Cut s' sep with
           | Some (before, after) => Some (String c before, after)
           | None => None
           end
  end.

(** [strings.SplitN s sep n] for a one-byte separator and [n >= 0]: at
    most [n] pieces, the last one being the unsplit remainder. *)
Fixpoint SplitN (s : string) (sep : ascii) (n : nat) : list string :=
  match n with
  | 0 => []
  | 1 => [s]
  | S n' =>
      match Cut s sep with
      | None => [s]
      | Some (before, after) => before :: SplitN after sep n'
      end
  end.

(** Whether the byte [c] occurs in [s]. *)
Fixpoint Contains (s : string) (c : ascii) : bool :=
  match s with
  | EmptyString => false
  | String c' s' => Ascii.eqb c' c || Contains s' c
  end.

End Strings.

(** ** Package [fmt] *)
Module Fmt.

(** [fmt.Sprintf] on string operands for formats whose only verb is [%s],
    which covers every format of the handler. A verb without operand
    prints as [%!s(MISSING)]; every call of the handler passes as many
    operands as its format has verbs. *)
Fixpoint Sprintf (format : string) (args : list string) : string :=
  match format with
  | EmptyString => EmptyString
  | String c rest =>
      match rest with
      | String d rest' =>
          if Ascii.eqb c "%"%char && Ascii.eqb d "s"%char then
            match args with
            | a :: args' => a +:+ Sprintf rest' args'
            | [] => "%!s(MISSING)" +:+ Sprintf rest' []
            end
          else String c (Sprintf rest args)
      | EmptyString => String c EmptyString
      end
  end.

End Fmt.

(** ** Go values and errors *)

(** Address of a map object. *)
Definition loc := positive.

(** What an [interface{}] of a decoded document holds. A map is held by
    reference. A slice is held by value: the handler never writes to the
    elements of a slice it was given. *)
Inductive value : Type :=
| VNil
| VBool (b : bool)
| VInt (n : Z)
| VString (s : string)
| VSlice (vs : list value)
| VMap (l : loc).

Inductive error : Type :=
| Errorf (msg : string)       (* an error built by fmt.Errorf *)
| ErrNotFound                 (* the sentinel grizzly.ErrNotFound *)
| ClientError (msg : string). (* whatever else the remote client reports *)

(** A Go result [(T, error)]. *)
Inductive result (A : Type) : Type :=
| Ok (a : A)
| Err (e : error).
Arguments Ok {A} a.
Arguments Err {A} e.

(** The run-time panics that the handler can meet. *)
Inductive panic : Type :=
| IndexOutOfRange
| TypeAssertion
| NilMapAssignment.

(** What running a piece of code gives: a value, or a panic. *)
Inductive res (A : Type) : Type :=
| Done (a : A)
| Panic (p : panic).
Arguments Done {A} a.
Arguments Panic {A} p.

(** [v == s] for an interface value [v] and a string constant [s]: true
    only when [v] holds a string, and that string is [s]. *)
Definition eq_string (v : value) (s : string) : bool :=
  match v with
  | VString s' => String.eqb s' s
  | _ => false
  end.

(** [v != nil] for an interface value [v]. *)
Definition not_nil (v : value) : bool :=
  match v with
  | VNil => false
  | _ => true
  end.

(** The index expression [m[k]] on a [map[string]interface{}]: nil for an
    absent key. *)
Definition index (m : gmap string value) (k : string) : value :=
  default VNil (m !! k).

(** ** Package [grizzly]: resources *)
Module Grizzly.

(** Modelled from the spec: the type [grizzly.Resource] is not part of the
    handler's file. A resource has a kind, a name, a metadata mapping and a
    spec mapping (section 3 of the specification); [NewResource] also
    receives an API version. The handler only reads the name, the metadata
    and the top level of the spec of a resource it is given, so these are
    held by value; the rule mappings reached from the spec are map objects
    of the store, referred to by address. *)
Record Resource : Type := mkResource {
  res_apiVersion : string;
  res_kind : string;
  res_name : string;
  res_metadata : gmap string string;
  res_spec : gmap string value
}.

(** Modelled from the spec: the accessor [Name()] of section 6. *)
Definition Name (r : Resource) : string := res_name r.

(** Modelled from the spec: the accessor [Spec()] of section 6. *)
Definition Spec (r : Resource) : gmap string value := res_spec r.

(** Modelled from the spec: the accessor [HasMetadata(key)] of section 6. *)
Definition HasMetadata (r : Resource) (key : string) : bool :=
  bool_decide (is_Some (res_metadata r !! key)).

(** Modelled from the spec: the accessor [GetMetadata(key)] of section 6.
    The specification does not say what is returned for an absent key; the
    model returns the empty string, and no statement below depends on that
    value. *)
Definition GetMetadata (r : Resource) (key : string) : string :=
  default "" (res_metadata r !! key).

(** Modelled from the spec: [SetMetadata(key, value)] of section 6. *)
Definition SetMetadata (r : Resource) (key val : string) : Resource :=
  mkResource (res_apiVersion r) (res_kind r) (res_name r)
             (<[key := val]> (res_metadata r)) (res_spec r).

(** Modelled from the spec: [GetSpecString(key)] of section 6, giving
    [(value, exists)]: the string held under [key], or the empty string
    and [false] when the spec has no such key. The value found is asserted
    to be a string, as the accessor's result type requires; under a key
    that holds something else the assertion fails, and a failed type
    assertion is a panic (section 4.1 of the specification, failure
    semantics). *)
Definition GetSpecString (r : Resource) (key : string)
    : res (string * bool) :=
  match res_spec r !! key with
  | None => Done ("", false)
  | Some (VString s) => Done (s, true)
  | Some _ => Panic TypeAssertion
  end.

(** Modelled from the spec: the construction helper [NewResource] of
    section 6, which the specification gives no failure for. The new
    resource has no metadata entry yet. *)
Definition NewResource (apiVersion kind name : string)
    (spec : gmap string value) : result Resource :=
  Ok (mkResource apiVersion kind name ∅ spec).

(** Modelled from the spec: [grizzly.BaseHandler], built by
    [NewBaseHandler provider kind usesFolders]; [Kind] gives back the kind
    and [APIVersion] the provider's API version. *)
Record BaseHandler : Type := mkBaseHandler {
  base_apiVersion : string;
  base_kind : string;
  base_usesFolders : bool
}.

(** Modelled from the spec: [grizzly.NewBaseHandler], with the provider
    reduced to the API version it carries. *)
Definition NewBaseHandler (providerAPIVersion kind : string)
    (usesFolders : bool) : BaseHandler :=
  mkBaseHandler providerAPIVersion kind usesFolders.

End Grizzly.

(** ** Package [models]: the remote wire shapes *)
Module Models.

(** Modelled from the spec: a rule group has a name and an ordered sequence
    of rule mappings; a grouping tags a sequence of groups with a
    namespace. *)
Record PrometheusRuleGroup : Type := mkGroup {
  Name : string;
  Rules : list value
}.

Record PrometheusRuleGrouping : Type := mkGrouping {
  Namespace : string;
  Groups : list PrometheusRuleGroup
}.

End Models.

(** ** The store and the remote client *)

Inductive call : Type :=
| ListRulesCall
| CreateRulesCall (grouping : Models.PrometheusRuleGrouping).

(** The map objects, and the calls made to the remote client so far. *)
Record world : Type := mkWorld {
  heap : gmap loc (gmap string value);
  trace : list call
}.

Module Client.

(** Modelled from the spec: the remote client is an external collaborator
    with the two operations of section 6. What it answers may depend on
    everything that happened before; it does not write to the caller's
    map objects. *)
Record Mimir : Type := mkMimir {
  ListRules_answer :
    world -> result (gmap string (list Models.PrometheusRuleGroup));
  CreateRules_answer :
    world -> Models.PrometheusRuleGrouping -> option error
}.

End Client.

(** ** Computations: a state monad over the world, with panics *)

Definition M (A : Type) : Type := world -> res A * world.

Definition ret {A} (a : A) : M A := fun w => (Done a, w).

Definition bind {A B} (c : M A) (k : A -> M B) : M B :=
  fun w =>
    match c w with
    | (Done a, w') => k a w'
    | (Panic p, w') => (Panic p, w')
    end.

Definition raise {A} (p : panic) : M A := fun w => (Panic p, w).

(** Running code that does not touch the world. *)
Definition pure {A} (r : res A) : M A := fun w => (r, w).

Notation "'let*' x ':=' c 'in' k" := (bind c (fun x => k))
  (at level 10, x name, c at level 200, k at level 200).

(** [for _, x := range xs { acc = body acc x }] over a slice. *)
Fixpoint rangeSlice {A B} (body : B -> A -> M B) (xs : list A) (acc : B)
    : M B :=
  match xs with
  | [] => ret acc
  | x :: xs' => let* acc' := body acc x in rangeSlice body xs' acc'
  end.

(** [xs[i]] on a slice. *)
Definition at_index {A} (xs : list A) (i : nat) : M A :=
  match xs !! i with
  | Some x => ret x
  | None => raise IndexOutOfRange
  end.

(** [v.([]interface{})] and [v.(map[string]interface{})]. *)
Definition assertSlice (v : value) : M (list value) :=
  match v with
  | VSlice vs => ret vs
  | _ => raise TypeAssertion
  end.

Definition assertMap (v : value) : M loc :=
  match v with
  | VMap l => ret l
  | _ => raise TypeAssertion
  end.

(** Reading, writing and deleting an entry of the map object at [l]. An
    address that the store does not hold stands for a nil map: reads give
    nil, deleting does nothing, assigning panics. *)
Definition mapaccess (l : loc) (k : string) : M value :=
  fun w =>
    (Done (match heap w !! l with
           | Some m => index m k
           | None => VNil
           end), w).

Definition mapassign (l : loc) (k : string) (v : value) : M unit :=
  fun w =>
    match heap w !! l with
    | Some m => (Done tt, mkWorld (<[l := <[k := v]> m]> (heap w)) (trace w))
    | None => (Panic NilMapAssignment, w)
    end.

Definition mapdelete (l : loc) (k : string) : M unit :=
  fun w =>
    match heap w !! l with
    | Some m => (Done tt, mkWorld (<[l := delete k m]> (heap w)) (trace w))
    | None => (Done tt, w)
    end.

(** The two calls to the remote client. *)
Definition ListRules (c : Client.Mimir)
    : M (result (gmap string (list Models.PrometheusRuleGroup))) :=
  fun w =>
    (Done (Client.ListRules_answer c w),
     mkWorld (heap w) (trace w ++ [ListRulesCall])).

Definition CreateRules (c : Client.Mimir)
    (grouping : Models.PrometheusRuleGrouping) : M (option error) :=
  fun w =>
    (Done (Client.CreateRules_answer c w grouping),
     mkWorld (heap w) (trace w ++ [CreateRulesCall grouping])).

(** ** The handler *)

Definition PrometheusRuleGroupKind : string := "PrometheusRuleGroup".

Definition prometheusRuleGroupPattern : string := "prometheus/rules-%s.%s".

Record RuleHandler : Type := mkRuleHandler {
  BaseHandler : Grizzly.BaseHandler;
  clientTool : Client.Mimir
}.

Definition NewRuleHandler (providerAPIVersion : string)
    (clientTool : Client.Mimir) : RuleHandler :=
  mkRuleHandler
    (Grizzly.NewBaseHandler providerAPIVersion PrometheusRuleGroupKind false)
    clientTool.

Definition Kind (h : RuleHandler) : string :=
  Grizzly.base_kind (BaseHandler h).

Definition APIVersion (h : RuleHandler) : string :=
  Grizzly.base_apiVersion (BaseHandler h).

Section Handler.

(** [os.PathSeparator], fixed by the platform. *)
Variable PathSeparator : ascii.

(** The order in which [range] visits the entries of a map: each entry
    once, in an order the language leaves open. *)
Variable rangeMap :
  gmap string (list Models.PrometheusRuleGroup) ->
  list (string * list Models.PrometheusRuleGroup).

Definition ResourceFilePath (h : RuleHandler) (resource : Grizzly.Resource)
    (filetype : string) : M string :=
  let filename :=
    Strings.ReplaceAll (Grizzly.Name resource) PathSeparator "-" in
  ret (Fmt.Sprintf prometheusRuleGroupPattern [filename; filetype]).

Definition Validate (h : RuleHandler) (resource : Grizzly.Resource)
    : M (option error) :=
  let* found := pure (Grizzly.GetSpecString resource "uid") in
  let '(uid, exist_) := found in
  if exist_ && negb (String.eqb uid (Grizzly.Name resource)) then
    ret (Some (Errorf (Fmt.Sprintf "uid '%s' and name '%s', don't match"
                         [uid; Grizzly.Name resource])))
  else ret None.

Definition GetUID (h : RuleHandler) (resource : Grizzly.Resource)
    : M (result string) :=
  if negb (Grizzly.HasMetadata resource "namespace") then
    ret (Err (Errorf (Fmt.Sprintf "%s %s requires a namespace metadata entry"
                        [Kind h; Grizzly.Name resource])))
  else
    ret (Ok (Fmt.Sprintf "%s.%s"
               [Grizzly.GetMetadata resource "namespace";
                Grizzly.Name resource])).

Definition GetSpecUID (h : RuleHandler) (resource : Grizzly.Resource)
    : M (result string) :=
  ret (Err (Errorf (Fmt.Sprintf
                      "GetSpecUID not implemented for prometheus rules" []))).

(** The inner loop of [getRemoteRuleGroup]: [None] when the loop runs to
    its end, [Some] when it returns from the function. *)
Fixpoint scanGroups (h : RuleHandler) (namespace name : string)
    (grouping : list Models.PrometheusRuleGroup)
    : option (result Grizzly.Resource) :=
  match grouping with
  | [] => None
  | group :: rest =>
      if String.eqb (Models.Name group) name then
        let spec : gmap string value :=
          {[ "rules" := VSlice (Models.Rules group) ]} in
        match Grizzly.NewResource (APIVersion h) (Kind h)
                (Models.Name group) spec with
        | Err e => Some (Err e)
        | Ok resource =>
            Some (Ok (Grizzly.SetMetadata resource "namespace" namespace))
        end
      else scanGroups h namespace name rest
  end.

(** The outer loop, over the entries of the map in the order given. *)
Fixpoint scanGroupings (h : RuleHandler) (namespace name : string)
    (groupings : list (string * list Models.PrometheusRuleGroup))
    : option (result Grizzly.Resource) :=
  match groupings with
  | [] => None
  | (key, grouping) :: rest =>
      if String.eqb key namespace then
        match scanGroups h namespace name grouping with
        | Some r => Some r
        | None => scanGroupings h namespace name rest
        end
      else scanGroupings h namespace name rest
  end.

Definition getRemoteRuleGroup (h : RuleHandler) (uid : string)
    : M (result Grizzly.Resource) :=
  let parts := Strings.SplitN uid "." 2 in
  let* namespace := at_index parts 0 in
  let* name := at_index parts 1 in
  let* listed := ListRules (clientTool h) in
  match listed with
  | Err e => ret (Err e)
  | Ok groupings =>
      match scanGroupings h namespace name (rangeMap groupings) with
      | Some r => ret r
      | None => ret (Err ErrNotFound)
      end
  end.

Definition getRemoteRuleGroupList (h : RuleHandler)
    : M (result (list string)) :=
  let* listed := ListRules (clientTool h) in
  match listed with
  | Err e => ret (Err e)
  | Ok groupings =>
      ret (Ok (foldl
                 (fun IDs '(namespace, grouping) =>
                    foldl
                      (fun IDs group =>
                         IDs ++ [Fmt.Sprintf "%s.%s"
                                   [namespace; Models.Name group]])
                      IDs grouping)
                 [] (rangeMap groupings)))
  end.

(** The body of the loop of [writeRuleGroup]: the rule is rewritten where
    it is, and the very same map object is appended to the new group. *)
Definition translateRule (rules : list value) (ruleIf : value)
    : M (list value) :=
  let* rule := assertMap ruleIf in
  let* ty := mapaccess rule "type" in
  let* renamed :=
    (if eq_string ty "recording" then
       let* n := mapaccess rule "name" in
       let* assigned := mapassign rule "record" n in
       mapdelete rule "name"
     else
       let* ty' := mapaccess rule "type" in
       if eq_string ty' "alerting" then
         let* n := mapaccess rule "name" in
         let* assigned := mapassign rule "alert" n in
         mapdelete rule "name"
       else ret tt) in
  let* q := mapaccess rule "query" in
  let* moved :=
    (if not_nil q then
       let* q' := mapaccess rule "query" in
       let* assigned := mapassign rule "expr" q' in
       mapdelete rule "query"
     else ret tt) in
  ret (rules ++ [VMap rule]).

Definition writeRuleGroup (h : RuleHandler) (resource : Grizzly.Resource)
    : M (option error) :=
  let newGroup := Models.mkGroup (Grizzly.Name resource) [] in
  let* rules := assertSlice (index (Grizzly.Spec resource) "rules") in
  let* newRules := rangeSlice translateRule rules (Models.Rules newGroup) in
  let grouping :=
    Models.mkGrouping
      (Grizzly.GetMetadata resource "namespace")
      [Models.mkGroup (Models.Name newGroup) newRules] in
  CreateRules (clientTool h) grouping.

Definition GetByUID (h : RuleHandler) (uid : string)
    : M (result Grizzly.Resource) :=
  getRemoteRuleGroup h uid.

Definition GetRemote (h : RuleHandler) (resource : Grizzly.Resource)
    : M (result Grizzly.Resource) :=
  let uid := Fmt.Sprintf "%s.%s"
               [Grizzly.GetMetadata resource "namespace";
                Grizzly.Name resource] in
  getRemoteRuleGroup h uid.

Definition ListRemote (h : RuleHandler) : M (result (list string)) :=
  getRemoteRuleGroupList h.

Definition Add (h : RuleHandler) (resource : Grizzly.Resource)
    : M (option error) :=
  writeRuleGroup h resource.

Definition Update (h : RuleHandler) (existing resource : Grizzly.Resource)
    : M (option error) :=
  writeRuleGroup h resource.

End Handler.

(** ** The specification's wording of the translation

    The rule translation as section 4.1 of the specification words it, on
    the contents of one rule mapping: a field is renamed by storing its
    value under the new key and removing the old key. *)

Definition renameField (old new : string) (m : gmap string value)
    : gmap string value :=
  delete old (<[new := index m old]> m).

Definition renamedByType (m : gmap string value) : gmap string value :=
  if eq_string (index m "type") "recording" then
    renameField "name" "record" m
  else if eq_string (index m "type") "alerting" then
    renameField "name" "alert" m
  else m.

Definition translated (m : gmap string value) : gmap string value :=
  let m1 := renamedByType m in
  if not_nil (index m1 "query") then renameField "query" "expr" m1 else m1.

(** The composite identifiers of the groups under one namespace. *)
Definition compositeIDs
    (entry : string * list Models.PrometheusRuleGroup) : list string :=
  (fun group => entry.1 +:+ "." +:+ Models.Name group) <$> entry.2.

(** The store after the loop of [writeRuleGroup] has visited the map
    objects at [locs] one after the other. *)
Definition rewritten (locs : list loc) (hp : gmap loc (gmap string value))
    : gmap loc (gmap string value) :=
  foldl (fun hp l => alter translated l hp) hp locs.

(** The resource that the lookup builds from a matching group. *)
Definition fetched (h : RuleHandler) (namespace : string)
    (group : Models.PrometheusRuleGroup) : Grizzly.Resource :=
  Grizzly.mkResource (APIVersion h) (Kind h) (Models.Name group)
    {[ "namespace" := namespace ]}
    {[ "rules" := VSlice (Models.Rules group) ]}.

(** After the world [w], the world in which the rules were listed once. *)
Definition listedOnce (w : world) : world :=
  mkWorld (heap w) (trace w ++ [ListRulesCall]).

(** After the world [w], the world in which [grouping] was pushed once. *)
Definition pushedOnce (grouping : Models.PrometheusRuleGrouping) (w : world)
    : world :=
  mkWorld (heap w) (trace w ++ [CreateRulesCall grouping]).

(** How many times the loop visits the map object at [l]: once for each
    place that it has in the sequence. *)
Definition visits (l : loc) (locs : list loc) : nat :=
  length (filter (fun l' => l' = l) locs).

(** The byte that replaces [c] in a file name. *)
Definition safeByte (sep c : ascii) : ascii :=
  if Ascii.eqb c sep then "-"%char else c.

(** The rule sequence of a resource, empty when the spec has none. *)
Definition rulesOf (resource : Grizzly.Resource) : list value :=
  match Grizzly.Spec resource !! "rules" with
  | Some (VSlice vs) => vs
  | _ => []
  end.

(** Every rule mapping of the resource holds in [w'] what it held in
    [w]. *)
Definition sameRules (resource : Grizzly.Resource) (w w' : world) : Prop :=
  forall l, VMap l ∈ rulesOf resource -> heap w' !! l = heap w !! l.

(** The grouping that [writeRuleGroup] pushes for a resource whose rules
    are the map objects at [locs]. *)
Definition pushed (resource : Grizzly.Resource) (locs : list loc)
    : Models.PrometheusRuleGrouping :=
  Models.mkGrouping (Grizzly.GetMetadata resource "namespace")
    [Models.mkGroup (Grizzly.Name resource) (VMap <$> locs)].

(** ** Sample data: the examples of section 8 of the specification *)
Module Sample.

Definition alertingRule : gmap string value :=
  {[ "type" := VString "alerting";
     "name" := VString "HighLatency";
     "query" := VString "up == 0" ]}.

Definition alertingRuleTranslated : gmap string value :=
  {[ "type" := VString "alerting";
     "alert" := VString "HighLatency";
     "expr" := VString "up == 0" ]}.

Definition recordingRule : gmap string value :=
  {[ "type" := VString "recording"; "name" := VString "X" ]}.

Definition store : gmap loc (gmap string value) :=
  {[ 1%positive := alertingRule; 2%positive := recordingRule ]}.

Definition latency : Grizzly.Resource :=
  Grizzly.mkResource "grizzly.grafana.com/v1alpha1" PrometheusRuleGroupKind
    "latency" {[ "namespace" := "teamA" ]}
    {[ "rules" := VSlice [VMap 1%positive; VMap 2%positive] ]}.

(** A resource without a namespace, whose spec names another uid. *)
Definition orphan : Grizzly.Resource :=
  Grizzly.mkResource "grizzly.grafana.com/v1alpha1" PrometheusRuleGroupKind
    "orphan" ∅ {[ "uid" := VString "other" ]}.

(** A resource whose spec repeats its name as uid. *)
Definition pinned : Grizzly.Resource :=
  Grizzly.mkResource "grizzly.grafana.com/v1alpha1" PrometheusRuleGroupKind
    "pinned" {[ "namespace" := "teamA" ]} {[ "uid" := VString "pinned" ]}.

(** A resource whose name has a dot. *)
Definition dotted : Grizzly.Resource :=
  Grizzly.mkResource "grizzly.grafana.com/v1alpha1" PrometheusRuleGroupKind
    "latency.p99" {[ "namespace" := "teamA" ]} {[ "rules" := VSlice [] ]}.

(** A resource whose rule sequence holds the same map object twice. *)
Definition twice : Grizzly.Resource :=
  Grizzly.mkResource "grizzly.grafana.com/v1alpha1" PrometheusRuleGroupKind
    "twice" {[ "namespace" := "teamA" ]}
    {[ "rules" := VSlice [VMap 2%positive; VMap 2%positive] ]}.

Definition teamA : list Models.PrometheusRuleGroup :=
  [Models.mkGroup "latency" [VMap 1%positive];
   Models.mkGroup "errors" []].

Definition remote : gmap string (list Models.PrometheusRuleGroup) :=
  {[ "teamA" := [Models.mkGroup "g1" []];
     "teamB" := [Models.mkGroup "g2" []; Models.mkGroup "g3" []] ]}.

Definition remoteLatency : gmap string (list Models.PrometheusRuleGroup) :=
  {[ "teamA" := teamA ]}.

(** A client that lists [groupings] and accepts every push. *)
Definition serving (groupings : gmap string (list Models.PrometheusRuleGroup))
    : Client.Mimir :=
  Client.mkMimir (fun _ => Ok groupings) (fun _ _ => None).

(** A client whose every call fails. *)
Definition failing : Client.Mimir :=
  Client.mkMimir (fun _ => Err (ClientError "503"))
                 (fun _ _ => Some (ClientError "503")).

Definition handler (c : Client.Mimir) : RuleHandler :=
  NewRuleHandler "grizzly.grafana.com/v1alpha1" c.

Definition start : world := mkWorld store [].

End Sample.

(** ** Further sample data *)
Module Further.

(** A resource whose second rule is not a mapping. *)
Definition broken : Grizzly.Resource :=
  Grizzly.mkResource "grizzly.grafana.com/v1alpha1" PrometheusRuleGroupKind
    "broken" {[ "namespace" := "teamA" ]}
    {[ "rules" := VSlice [VMap 1%positive; VString "oops";
                          VMap 2%positive] ]}.

(** A resource whose namespace has a dot, and a remote grouping that holds
    its group under that namespace. *)
Definition dottedNamespace : Grizzly.Resource :=
  Grizzly.mkResource "grizzly.grafana.com/v1alpha1" PrometheusRuleGroupKind
    "g" {[ "namespace" := "team.a" ]} {[ "rules" := VSlice [] ]}.

Definition remoteDotted : gmap string (list Models.PrometheusRuleGroup) :=
  {[ "team.a" := [Models.mkGroup "g" []] ]}.

(** A rule in the remote shape, the store that holds it, and the remote
    grouping that refers to it. *)
Definition remoteRule : gmap string value :=
  {[ "alert" := VString "HighLatency"; "expr" := VString "up == 0" ]}.

Definition remoteStore : gmap loc (gmap string value) :=
  {[ 3%positive := remoteRule ]}.

Definition remoteStored : gmap string (list Models.PrometheusRuleGroup) :=
  {[ "teamA" := [Models.mkGroup "latency" [VMap 3%positive]] ]}.

(** A resource whose spec holds a number under ["uid"]. *)
Definition numbered : Grizzly.Resource :=
  Grizzly.mkResource "grizzly.grafana.com/v1alpha1" PrometheusRuleGroupKind
    "seven" {[ "namespace" := "teamA" ]} {[ "uid" := VInt 7 ]}.

(** Another order of visit of a map: the entries from last to first. *)
Definition backwards (m : gmap string (list Models.PrometheusRuleGroup))
    : list (string * list Models.PrometheusRuleGroup) :=
  reverse (map_to_list m).

End Further.

(** ** Facts about the string functions *)

Lemma append_empty_r (s : string) : s +:+ "" = s.
Proof.
  induction s as [|c s IH]; [reflexivity|].
  change (String c (s +:+ "") = String c s). by rewrite IH.
Qed.

Lemma append_cons (c : ascii) (s t : string) :
  String c s +:+ t = String c (s +:+ t).
Proof. reflexivity. Qed.

Lemma Sprintf_pattern (a b : string) :
  Fmt.Sprintf prometheusRuleGroupPattern [a; b]
  = "prometheus/rules-" +:+ a +:+ "." +:+ b.
Proof. unfold prometheusRuleGroupPattern. simpl. by rewrite append_empty_r. Qed.

Lemma Sprintf_uid (a b : string) :
  Fmt.Sprintf "%s.%s" [a; b] = a +:+ "." +:+ b.
Proof. simpl. by rewrite append_empty_r. Qed.

Lemma ReplaceAll_cons (c sep : ascii) (s : string) :
  Strings.ReplaceAll (String c s) sep "-"
  = String (safeByte sep c) (Strings.ReplaceAll s sep "-").
Proof. unfold safeByte. simpl. by destruct (Ascii.eqb c sep). Qed.

Lemma ReplaceAll_length (s : string) (sep : ascii) :
  String.length (Strings.ReplaceAll s sep "-") = String.length s.
Proof.
  induction s as [|c s IH]; [reflexivity|].
  rewrite ReplaceAll_cons. simpl. by rewrite IH.
Qed.

Lemma ReplaceAll_get (s : string) (sep : ascii) (i : nat) :
  String.get i (Strings.ReplaceAll s sep "-")
  = safeByte sep <$> String.get i s.
Proof.
  revert i. induction s as [|c s IH]; intros i; [reflexivity|].
  rewrite ReplaceAll_cons. destruct i as [|i]; simpl; [reflexivity|].
  apply IH.
Qed.

Lemma Contains_cons (c x : ascii) (s : string) :
  Strings.Contains (String c s) x = Ascii.eqb c x || Strings.Contains s x.
Proof. reflexivity. Qed.

Lemma ReplaceAll_Contains (s : string) (sep : ascii) :
  Strings.Contains (Strings.ReplaceAll s sep "-") sep
  = Ascii.eqb sep "-" && Strings.Contains s sep.
Proof.
  induction s as [|c s IH]; [by rewrite andb_false_r|].
  rewrite ReplaceAll_cons, !Contains_cons, IH. unfold safeByte.
  destruct (Ascii.eqb c sep) eqn:E.
  - rewrite (Ascii.eqb_sym "-" sep).
    destruct (Ascii.eqb sep "-"); reflexivity.
  - rewrite E. reflexivity.
Qed.

Lemma Cut_None (s : string) (sep : ascii) :
  Strings.Cut s sep = None <-> Strings.Contains s sep = false.
Proof.
  induction s as [|c s IH]; simpl; [done|].
  destruct (Ascii.eqb c sep); simpl; [split; discriminate|].
  destruct (Strings.Cut s sep) as [[before after]|].
  - split; [discriminate|]. intros H. apply IH in H. discriminate.
  - split; [|done]. intros _. by apply IH.
Qed.

Lemma Cut_Some (s : string) (sep : ascii) (before after : string) :
  Strings.Cut s sep = Some (before, after) ->
  s = before +:+ String sep after /\ Strings.Contains before sep = false.
Proof.
  revert before. induction s as [|c s IH]; intros before; simpl; [done|].
  destruct (Ascii.eqb c sep) eqn:E.
  - intros [= <- <-]. apply Ascii.eqb_eq in E as ->. done.
  - destruct (Strings.Cut s sep) as [[b a]|]; [|done].
    intros [= <- <-]. destruct (IH b eq_refl) as [-> Hb].
    rewrite Contains_cons, E, Hb. done.
Qed.

Lemma Cut_app (before after : string) (sep : ascii) :
  Strings.Contains before sep = false ->
  Strings.Cut (before +:+ String sep after) sep = Some (before, after).
Proof.
  induction before as [|c s IH]; rewrite ?append_cons; simpl.
  - intros _. by rewrite Ascii.eqb_refl.
  - intros [Hc Hs]%orb_false_elim. rewrite Hc, (IH Hs). done.
Qed.

Lemma Contains_app (before after : string) (sep : ascii) :
  Strings.Contains (before +:+ String sep after) sep = true.
Proof.
  induction before as [|c s IH].
  - change (Strings.Contains (String sep after) sep = true).
    by rewrite Contains_cons, Ascii.eqb_refl.
  - rewrite append_cons, Contains_cons, IH. by rewrite orb_true_r.
Qed.

Lemma SplitN_2 (s : string) (sep : ascii) :
  Strings.SplitN s sep 2
  = match Strings.Cut s sep with
    | None => [s]
    | Some (before, after) => [before; after]
    end.
Proof. simpl. by destruct (Strings.Cut s sep) as [[before after]|]. Qed.

(** ** The operations that only compute *)

(** C8. [ResourceFilePath] returns, without failing and without touching
    the world, the pattern ["prometheus/rules-<safe-name>.<filetype>"],
    where the safe name is the resource's name with every path-separator
    byte replaced by a hyphen and every other byte kept in place. Where the
    path separator is the slash, the name ["alerts"] with file type
    ["yaml"] gives ["prometheus/rules-alerts.yaml"] and the name ["a/b"]
    gives ["prometheus/rules-a-b.yaml"]. *)
Theorem ResourceFilePath_spec (sep : ascii) (h : RuleHandler)
    (resource : Grizzly.Resource) (filetype : string) (w : world) :
  let name := Grizzly.Name resource in
  let safe := Strings.ReplaceAll name sep "-" in
  ResourceFilePath sep h resource filetype w
    = (Done ("prometheus/rules-" +:+ safe +:+ "." +:+ filetype), w)
  /\ String.length safe = String.length name
  /\ (forall i, String.get i safe = safeByte sep <$> String.get i name)
  /\ Strings.Contains safe sep
     = Ascii.eqb sep "-" && Strings.Contains name sep
  /\ (forall apiVersion kind metadata spec,
        ResourceFilePath "/" h
          (Grizzly.mkResource apiVersion kind "alerts" metadata spec)
          "yaml" w
        = (Done "prometheus/rules-alerts.yaml", w))
  /\ (forall apiVersion kind metadata spec,
        ResourceFilePath "/" h
          (Grizzly.mkResource apiVersion kind "a/b" metadata spec)
          "yaml" w
        = (Done "prometheus/rules-a-b.yaml", w)).
Proof.
  intros name safe. repeat split.
  - unfold ResourceFilePath, ret. by rewrite Sprintf_pattern.
  - apply ReplaceAll_length.
  - apply ReplaceAll_get.
  - apply ReplaceAll_Contains.
Qed.

Lemma GetUID_lookup (h : RuleHandler) (resource : Grizzly.Resource)
    (w : world) (N : string) :
  Grizzly.res_metadata resource !! "namespace" = Some N ->
  GetUID h resource w = (Done (Ok (N +:+ "." +:+ Grizzly.Name resource)), w).
Proof.
  intros HN. unfold GetUID, Grizzly.HasMetadata, Grizzly.GetMetadata.
  rewrite HN. rewrite bool_decide_eq_true_2 by eauto.
  unfold ret. simpl negb. cbv iota. by rewrite Sprintf_uid.
Qed.

(** C6. [GetUID] fails, with the error naming the kind and the resource and
    saying that a namespace metadata entry is required, when the resource
    has no ["namespace"] metadata entry; with the entry [N] and the name
    [X] it succeeds and returns exactly [N.X]. *)
Theorem GetUID_spec (h : RuleHandler) (resource : Grizzly.Resource)
    (w : world) :
  (Grizzly.res_metadata resource !! "namespace" = None ->
   GetUID h resource w
   = (Done (Err (Errorf (Kind h +:+ " " +:+ Grizzly.Name resource
                         +:+ " requires a namespace metadata entry"))), w))
  /\ (forall N : string,
        Grizzly.res_metadata resource !! "namespace" = Some N ->
        GetUID h resource w
        = (Done (Ok (N +:+ "." +:+ Grizzly.Name resource)), w)).
Proof.
  split.
  - intros HN. unfold GetUID, Grizzly.HasMetadata. rewrite HN.
    rewrite bool_decide_eq_false_2 by (by intros [x Hx]). reflexivity.
  - intros N HN. by apply GetUID_lookup.
Qed.

Lemma GetUID_spec_witness :
  GetUID (Sample.handler Sample.failing) Sample.latency Sample.start
  = (Done (Ok "teamA.latency"), Sample.start)
  /\ GetUID (Sample.handler Sample.failing) Sample.orphan Sample.start
     = (Done (Err (Errorf
          "PrometheusRuleGroup orphan requires a namespace metadata entry")),
        Sample.start).
Proof.
  split.
  - apply (proj2 (GetUID_spec (Sample.handler Sample.failing)
                    Sample.latency Sample.start) "teamA").
    reflexivity.
  - apply (proj1 (GetUID_spec (Sample.handler Sample.failing)
                    Sample.orphan Sample.start)).
    reflexivity.
Defined.

Lemma Validate_cases (h : RuleHandler) (resource : Grizzly.Resource)
    (w : world) :
  Validate h resource w
  = match Grizzly.Spec resource !! "uid" with
    | None => (Done None, w)
    | Some (VString uid) =>
        if String.eqb uid (Grizzly.Name resource) then (Done None, w)
        else (Done (Some (Errorf
                            (Fmt.Sprintf "uid '%s' and name '%s', don't match"
                               [uid; Grizzly.Name resource]))), w)
    | Some _ => (Panic TypeAssertion, w)
    end.
Proof.
  unfold Validate, bind, pure, Grizzly.GetSpecString, Grizzly.Spec.
  destruct (Grizzly.res_spec resource !! "uid") as [[| | |uid| |]|];
    try reflexivity.
  simpl. by destruct (String.eqb uid (Grizzly.Name resource)).
Qed.

(** C7, counterexample. The sample resource named ["seven"] holds the
    number 7 under ["uid"], which is present and differs from the name,
    yet [Validate] returns no error on it: it panics on the type
    assertion. *)
Lemma Validate_uid_not_a_string :
  let resource := Further.numbered in
  let h := Sample.handler Sample.failing in
  is_Some (Grizzly.Spec resource !! "uid")
  /\ Grizzly.Spec resource !! "uid"
     <> Some (VString (Grizzly.Name resource))
  /\ ~ (exists e w', Validate h resource Sample.start = (Done (Some e), w')).
Proof.
  intros resource h. split; [by eexists|]. split; [discriminate|].
  intros (e & w' & Hvalidate). rewrite Validate_cases in Hvalidate.
  discriminate.
Qed.

(** C7, amended. [Validate] succeeds when the spec has no ["uid"] key or
    holds the resource's name under it, and fails with the error naming
    both the uid and the name when the spec holds another string under
    ["uid"]. When the spec holds under ["uid"] something that is not a
    string, [Validate] returns no error: it panics on the type assertion.
    In every case no call to the remote client is made and the world is
    left as it was. *)
Theorem Validate_spec (h : RuleHandler) (resource : Grizzly.Resource)
    (w : world) :
  (Grizzly.Spec resource !! "uid" = None ->
   Validate h resource w = (Done None, w))
  /\ (Grizzly.Spec resource !! "uid"
      = Some (VString (Grizzly.Name resource)) ->
      Validate h resource w = (Done None, w))
  /\ (forall uid : string,
        Grizzly.Spec resource !! "uid" = Some (VString uid) ->
        uid <> Grizzly.Name resource ->
        Validate h resource w
        = (Done (Some (Errorf ("uid '" +:+ uid +:+ "' and name '"
                               +:+ Grizzly.Name resource
                               +:+ "', don't match"))), w))
  /\ (forall v : value,
        Grizzly.Spec resource !! "uid" = Some v ->
        (forall s, v <> VString s) ->
        Validate h resource w = (Panic TypeAssertion, w))
  /\ (Validate h resource w).2 = w.
Proof.
  rewrite Validate_cases. repeat split.
  - by intros ->.
  - intros ->. by rewrite String.eqb_refl.
  - intros uid -> Hne. apply String.eqb_neq in Hne. by rewrite Hne.
  - intros v -> Hv. destruct v as [| | |s| |]; try reflexivity.
    by destruct (Hv s).
  - destruct (Grizzly.Spec resource !! "uid") as [[| | |uid| |]|];
      try reflexivity.
    by destruct (String.eqb uid (Grizzly.Name resource)).
Qed.

Lemma Validate_spec_witness :
  Validate (Sample.handler Sample.failing) Sample.latency Sample.start
  = (Done None, Sample.start)
  /\ Validate (Sample.handler Sample.failing) Sample.pinned Sample.start
     = (Done None, Sample.start)
  /\ Validate (Sample.handler Sample.failing) Sample.orphan Sample.start
     = (Done (Some (Errorf "uid 'other' and name 'orphan', don't match")),
        Sample.start)
  /\ Validate (Sample.handler Sample.failing) Further.numbered Sample.start
     = (Panic TypeAssertion, Sample.start).
Proof.
  split; [|split; [|split]].
  - apply (proj1 (Validate_spec (Sample.handler Sample.failing)
                    Sample.latency Sample.start)).
    reflexivity.
  - apply (proj1 (proj2 (Validate_spec (Sample.handler Sample.failing)
                           Sample.pinned Sample.start))).
    reflexivity.
  - apply (proj1 (proj2 (proj2 (Validate_spec
             (Sample.handler Sample.failing) Sample.orphan Sample.start)))
             "other"); [reflexivity | discriminate].
  - apply (proj1 (proj2 (proj2 (proj2 (Validate_spec
             (Sample.handler Sample.failing) Further.numbered
             Sample.start)))) (VInt 7)); [reflexivity | discriminate].
Defined.

(** ** Looking a group up by its composite identifier *)

Section Lookup.

Variable rangeMap :
  gmap string (list Models.PrometheusRuleGroup) ->
  list (string * list Models.PrometheusRuleGroup).

Lemma getRemoteRuleGroup_unfold (h : RuleHandler) (uid : string) (w : world) :
  getRemoteRuleGroup rangeMap h uid w
  = match Strings.Cut uid "." with
    | None => (Panic IndexOutOfRange, w)
    | Some (namespace, name) =>
        (Done (match Client.ListRules_answer (clientTool h) w with
               | Err e => Err e
               | Ok groupings =>
                   match scanGroupings h namespace name
                           (rangeMap groupings) with
                   | Some r => r
                   | None => Err ErrNotFound
                   end
               end), listedOnce w)
    end.
Proof.
  unfold getRemoteRuleGroup. rewrite SplitN_2.
  destruct (Strings.Cut uid ".") as [[namespace name]|]; [|reflexivity].
  unfold bind, at_index, ListRules, ret. simpl.
  destruct (Client.ListRules_answer (clientTool h) w) as [groupings|e];
    [|reflexivity].
  by destruct (scanGroupings h namespace name (rangeMap groupings)).
Qed.

Lemma scanGroups_found (h : RuleHandler) (namespace name : string)
    (before after : list Models.PrometheusRuleGroup)
    (group : Models.PrometheusRuleGroup) :
  Forall (fun g => Models.Name g <> name) before ->
  Models.Name group = name ->
  scanGroups h namespace name (before ++ group :: after)
  = Some (Ok (fetched h namespace group)).
Proof.
  intros Hbefore Hname. induction Hbefore as [|g before Hg _ IH]; simpl.
  - rewrite Hname, String.eqb_refl. unfold Grizzly.SetMetadata, fetched.
    simpl. by rewrite insert_empty, Hname.
  - apply String.eqb_neq in Hg. by rewrite Hg.
Qed.

Lemma scanGroups_none (h : RuleHandler) (namespace name : string)
    (groups : list Models.PrometheusRuleGroup) :
  Forall (fun g => Models.Name g <> name) groups ->
  scanGroups h namespace name groups = None.
Proof.
  induction 1 as [|g groups Hg _ IH]; simpl; [done|].
  apply String.eqb_neq in Hg. by rewrite Hg.
Qed.

Lemma scanGroups_Some (h : RuleHandler) (namespace name : string)
    (groups : list Models.PrometheusRuleGroup) (r : result Grizzly.Resource) :
  scanGroups h namespace name groups = Some r ->
  exists group, group ∈ groups /\ Models.Name group = name
                /\ r = Ok (fetched h namespace group).
Proof.
  induction groups as [|g groups IH]; simpl; [done|].
  destruct (String.eqb (Models.Name g) name) eqn:E.
  - intros [= <-]. apply String.eqb_eq in E. exists g.
    split; [left|split; [done|]]. unfold Grizzly.SetMetadata, fetched.
    simpl. by rewrite insert_empty.
  - intros (group & Hin & Hrest)%IH. exists group. split; [by right|done].
Qed.

Lemma scanGroupings_absent (h : RuleHandler) (namespace name : string)
    (entries : list (string * list Models.PrometheusRuleGroup)) :
  namespace ∉ entries.*1 ->
  scanGroupings h namespace name entries = None.
Proof.
  induction entries as [|[key grouping] entries IH]; simpl; [done|].
  intros [Hkey Hrest]%not_elem_of_cons.
  assert (String.eqb key namespace = false) as ->
    by (apply String.eqb_neq; congruence).
  by apply IH.
Qed.

Lemma scanGroupings_present (h : RuleHandler) (namespace name : string)
    (entries : list (string * list Models.PrometheusRuleGroup))
    (groups : list Models.PrometheusRuleGroup) :
  NoDup entries.*1 ->
  (namespace, groups) ∈ entries ->
  scanGroupings h namespace name entries = scanGroups h namespace name groups.
Proof.
  induction entries as [|[key grouping] entries IH]; simpl.
  - intros _ Hin. by apply elem_of_nil in Hin.
  - intros [Hfresh Hnodup]%NoDup_cons [Hhere|Hlater]%elem_of_cons.
    + injection Hhere as <- <-. rewrite String.eqb_refl.
      rewrite (scanGroupings_absent h namespace name entries Hfresh).
      by destruct (scanGroups h namespace name groups).
    + assert (key <> namespace) as Hne.
      { intros ->. apply Hfresh. apply list_elem_of_fmap.
        by exists (namespace, groups). }
      apply String.eqb_neq in Hne. rewrite Hne. by apply IH.
Qed.

Lemma scanGroupings_Some (h : RuleHandler) (namespace name : string)
    (entries : list (string * list Models.PrometheusRuleGroup))
    (r : result Grizzly.Resource) :
  scanGroupings h namespace name entries = Some r ->
  exists groups group,
    (namespace, groups) ∈ entries /\ group ∈ groups
    /\ Models.Name group = name /\ r = Ok (fetched h namespace group).
Proof.
  induction entries as [|[key grouping] entries IH]; simpl; [done|].
  destruct (String.eqb key namespace) eqn:E.
  - apply String.eqb_eq in E as ->.
    destruct (scanGroups h namespace name grouping) as [r'|] eqn:Hscan.
    + intros [= <-].
      destruct (scanGroups_Some _ _ _ _ _ Hscan) as (group & Hin & Hrest).
      exists grouping, group. split; [left|done].
    + intros (groups & group & Hin & Hrest)%IH.
      exists groups, group. split; [by right|done].
  - intros (groups & group & Hin & Hrest)%IH.
    exists groups, group. split; [by right|done].
Qed.

Section Order.

Hypothesis rangeMap_perm : forall m, rangeMap m ≡ₚ map_to_list m.

Lemma scanGroupings_lookup (h : RuleHandler) (namespace name : string)
    (groupings : gmap string (list Models.PrometheusRuleGroup)) :
  scanGroupings h namespace name (rangeMap groupings)
  = match groupings !! namespace with
    | Some groups => scanGroups h namespace name groups
    | None => None
    end.
Proof.
  pose proof (rangeMap_perm groupings) as Hperm.
  destruct (groupings !! namespace) as [groups|] eqn:Hlookup.
  - apply scanGroupings_present.
    + rewrite Hperm. apply NoDup_fst_map_to_list.
    + rewrite Hperm. by apply elem_of_map_to_list.
  - apply scanGroupings_absent. rewrite Hperm.
    intros ([key groups] & Hkey & Hin)%list_elem_of_fmap. simpl in Hkey.
    subst key. apply elem_of_map_to_list in Hin. congruence.
Qed.

End Order.

End Lookup.

Lemma scanGroups_exists (h : RuleHandler) (namespace name : string)
    (groups : list Models.PrometheusRuleGroup)
    (g : Models.PrometheusRuleGroup) :
  g ∈ groups -> Models.Name g = name ->
  exists group, group ∈ groups /\ Models.Name group = name
    /\ scanGroups h namespace name groups
       = Some (Ok (fetched h namespace group)).
Proof.
  intros Hin Hname. induction groups as [|g' groups IH].
  - by apply elem_of_nil in Hin.
  - destruct (decide (Models.Name g' = name)) as [Heq|Hne].
    + exists g'. split; [left|split; [done|]].
      by apply (scanGroups_found h namespace name [] groups g').
    + apply elem_of_cons in Hin as [->|Hin]; [done|].
      destruct (IH Hin) as (group & Hgroup & Hn & Hscan).
      exists group. split; [by right|split; [done|]].
      simpl. apply String.eqb_neq in Hne. by rewrite Hne.
Qed.

(** C9. In the lookup behind [GetByUID] and [GetRemote], the second piece
    of the split uid exists exactly when the uid contains a dot. Without a
    dot the split has one piece and the lookup panics with an index out of
    range, before any call to the client. With a dot the split gives the
    namespace (the text before the first dot, itself free of dots) and the
    name (the rest), and the lookup goes on to list the rules once and
    returns. The uid that [GetRemote] builds always has the dot. *)
Theorem uid_second_piece_in_range
    (rangeMap : gmap string (list Models.PrometheusRuleGroup) ->
                list (string * list Models.PrometheusRuleGroup))
    (h : RuleHandler) (uid : string) (w : world) :
  (is_Some (Strings.SplitN uid "." 2 !! 1)
   <-> Strings.Contains uid "." = true)
  /\ (Strings.Contains uid "." = false ->
      Strings.SplitN uid "." 2 = [uid]
      /\ getRemoteRuleGroup rangeMap h uid w = (Panic IndexOutOfRange, w)
      /\ GetByUID rangeMap h uid w = (Panic IndexOutOfRange, w))
  /\ (Strings.Contains uid "." = true ->
      exists namespace name,
        Strings.SplitN uid "." 2 = [namespace; name]
        /\ uid = namespace +:+ "." +:+ name
        /\ Strings.Contains namespace "." = false
        /\ exists r,
             getRemoteRuleGroup rangeMap h uid w = (Done r, listedOnce w)
             /\ GetByUID rangeMap h uid w = (Done r, listedOnce w))
  /\ (forall (resource : Grizzly.Resource) (N : string),
        Grizzly.res_metadata resource !! "namespace" = Some N ->
        exists r, GetRemote rangeMap h resource w = (Done r, listedOnce w)).
Proof.
  unfold GetByUID, GetRemote.
  split; [|split; [|split]].
  - rewrite SplitN_2. destruct (Strings.Cut uid ".") as [[ns nm]|] eqn:E.
    + split; [|by eexists]. intros _.
      destruct (Strings.Contains uid ".") eqn:C; [done|].
      apply Cut_None in C. congruence.
    + apply Cut_None in E. rewrite E. split; [|done].
      intros [x Hx]. done.
  - intros C. rewrite getRemoteRuleGroup_unfold, SplitN_2.
    apply Cut_None in C. by rewrite C.
  - intros C. rewrite getRemoteRuleGroup_unfold, SplitN_2.
    destruct (Strings.Cut uid ".") as [[ns nm]|] eqn:E.
    + destruct (Cut_Some _ _ _ _ E) as [Huid Hns].
      exists ns, nm. repeat split; try done. by eexists.
    + apply Cut_None in E. congruence.
  - intros resource N HN. rewrite getRemoteRuleGroup_unfold, Sprintf_uid.
    unfold Grizzly.GetMetadata. rewrite HN. simpl.
    destruct (Strings.Cut (N +:+ "." +:+ Grizzly.Name resource) ".")
      as [[ns nm]|] eqn:E; [by eexists|].
    apply Cut_None in E.
    change (Strings.Contains
              (N +:+ String "."%char (Grizzly.Name resource)) "." = false)
      in E.
    by rewrite Contains_app in E.
Qed.

Lemma uid_second_piece_in_range_witness :
  (Strings.SplitN "teamA" "." 2 = ["teamA"]
   /\ getRemoteRuleGroup map_to_list (Sample.handler Sample.failing)
        "teamA" Sample.start = (Panic IndexOutOfRange, Sample.start)
   /\ GetByUID map_to_list (Sample.handler Sample.failing)
        "teamA" Sample.start = (Panic IndexOutOfRange, Sample.start))
  /\ (exists namespace name,
        Strings.SplitN "teamA.latency" "." 2 = [namespace; name]
        /\ "teamA.latency" = namespace +:+ "." +:+ name
        /\ Strings.Contains namespace "." = false
        /\ exists r,
             getRemoteRuleGroup map_to_list (Sample.handler Sample.failing)
               "teamA.latency" Sample.start
             = (Done r, listedOnce Sample.start)
             /\ GetByUID map_to_list (Sample.handler Sample.failing)
                  "teamA.latency" Sample.start
                = (Done r, listedOnce Sample.start))
  /\ (exists r,
        GetRemote map_to_list (Sample.handler Sample.failing)
          Sample.latency Sample.start
        = (Done r, listedOnce Sample.start)).
Proof.
  split; [|split].
  - apply (proj1 (proj2 (uid_second_piece_in_range map_to_list
             (Sample.handler Sample.failing) "teamA" Sample.start))).
    reflexivity.
  - apply (proj1 (proj2 (proj2 (uid_second_piece_in_range map_to_list
             (Sample.handler Sample.failing) "teamA.latency"
             Sample.start)))).
    reflexivity.
  - apply (proj2 (proj2 (proj2 (uid_second_piece_in_range map_to_list
             (Sample.handler Sample.failing) "teamA.latency"
             Sample.start))) Sample.latency "teamA").
    reflexivity.
Defined.

Lemma Cut_uid (namespace name : string) :
  Strings.Contains namespace "." = false ->
  Strings.Cut (namespace +:+ "." +:+ name) "." = Some (namespace, name).
Proof. intros H. by apply (Cut_app namespace name "."). Qed.

(** C10. The composite identifier round-trips: for a namespace [N] free of
    dots and any name [X], dots allowed, splitting [N.X] gives back [N] and
    [X], so that looking up the identifier that [GetUID] computes for a
    resource scans the remote grouping for exactly its namespace and name.
    A namespace with a dot is never recovered by the split, and no resource
    returned by [GetByUID] has such a namespace. *)
Theorem composite_id_round_trip
    (rangeMap : gmap string (list Models.PrometheusRuleGroup) ->
                list (string * list Models.PrometheusRuleGroup))
    (h : RuleHandler) (w : world) :
  (forall N X : string,
     Strings.Contains N "." = false ->
     Strings.SplitN (N +:+ "." +:+ X) "." 2 = [N; X])
  /\ (forall (resource : Grizzly.Resource) (N : string),
        Grizzly.res_metadata resource !! "namespace" = Some N ->
        Strings.Contains N "." = false ->
        exists uid,
          GetUID h resource w = (Done (Ok uid), w)
          /\ GetByUID rangeMap h uid w
             = (Done (match Client.ListRules_answer (clientTool h) w with
                      | Err e => Err e
                      | Ok groupings =>
                          match scanGroupings h N (Grizzly.Name resource)
                                  (rangeMap groupings) with
                          | Some r => r
                          | None => Err ErrNotFound
                          end
                      end), listedOnce w))
  /\ (forall N X : string,
        Strings.Contains N "." = true ->
        exists N' X',
          Strings.SplitN (N +:+ "." +:+ X) "." 2 = [N'; X']
          /\ Strings.Contains N' "." = false /\ N' <> N)
  /\ (forall (uid : string) (r : Grizzly.Resource) (w' : world),
        GetByUID rangeMap h uid w = (Done (Ok r), w') ->
        exists N, Grizzly.res_metadata r !! "namespace" = Some N
                  /\ Strings.Contains N "." = false).
Proof.
  split; [|split; [|split]].
  - intros N X HN. by rewrite SplitN_2, Cut_uid.
  - intros resource N Hmeta HN. exists (N +:+ "." +:+ Grizzly.Name resource).
    split; [by apply GetUID_lookup|].
    unfold GetByUID. by rewrite getRemoteRuleGroup_unfold, Cut_uid.
  - intros N X HN. rewrite SplitN_2.
    destruct (Strings.Cut (N +:+ "." +:+ X) ".") as [[N' X']|] eqn:E.
    + destruct (Cut_Some _ _ _ _ E) as [_ HN'].
      exists N', X'. repeat split; [done|]. intros ->. congruence.
    + apply Cut_None in E.
      change (Strings.Contains (N +:+ String "."%char X) "." = false) in E.
      by rewrite Contains_app in E.
  - intros uid r w'. unfold GetByUID. rewrite getRemoteRuleGroup_unfold.
    destruct (Strings.Cut uid ".") as [[ns nm]|] eqn:E; [|done].
    destruct (Cut_Some _ _ _ _ E) as [_ Hns].
    destruct (Client.ListRules_answer (clientTool h) w) as [groupings|e];
      [|done].
    destruct (scanGroupings h ns nm (rangeMap groupings)) as [r'|] eqn:Hscan;
      [|done].
    destruct (scanGroupings_Some _ _ _ _ _ Hscan)
      as (groups & group & _ & _ & _ & ->).
    intros [= <- _]. exists ns. split; [|done].
    unfold fetched. simpl. apply lookup_singleton_eq.
Qed.

Lemma composite_id_round_trip_witness :
  let h := Sample.handler (Sample.serving Sample.remoteLatency) in
  Strings.SplitN "teamA.latency.p99" "." 2 = ["teamA"; "latency.p99"]
  /\ (exists uid,
        GetUID h Sample.dotted Sample.start = (Done (Ok uid), Sample.start)
        /\ GetByUID map_to_list h uid Sample.start
           = (Done (match scanGroupings h "teamA" "latency.p99"
                            (map_to_list Sample.remoteLatency) with
                    | Some r => r
                    | None => Err ErrNotFound
                    end), listedOnce Sample.start))
  /\ (exists N' X',
        Strings.SplitN "team.a.latency" "." 2 = [N'; X']
        /\ Strings.Contains N' "." = false /\ N' <> "team.a")
  /\ (exists N,
        Grizzly.res_metadata
          (fetched h "teamA" (Models.mkGroup "latency" [VMap 1%positive]))
          !! "namespace" = Some N
        /\ Strings.Contains N "." = false).
Proof.
  intros h.
  destruct (composite_id_round_trip map_to_list h Sample.start)
    as (Hsplit & Hlookup & Hdotted & Hfound).
  split; [|split; [|split]].
  - apply (Hsplit "teamA" "latency.p99"). reflexivity.
  - apply (Hlookup Sample.dotted "teamA"); reflexivity.
  - apply (Hdotted "team.a" "latency"). reflexivity.
  - apply (Hfound "teamA.latency" _ (listedOnce Sample.start)).
    vm_compute. reflexivity.
Defined.

(** C2. For a uid [namespace.name] (the namespace free of dots) and the
    grouping that the client's [ListRules] returns: when the grouping has
    the namespace and a group of that name under it, [GetByUID] returns a
    new resource of the handler's kind, named after the group, with the
    metadata entry ["namespace"] set to the namespace and a spec holding
    only ["rules"], the group's rule list as received (of the first such
    group in the sequence); when no group matches, it fails with
    [ErrNotFound]; when [ListRules] fails, its error is returned as it
    is. *)
Theorem GetByUID_spec
    (rangeMap : gmap string (list Models.PrometheusRuleGroup) ->
                list (string * list Models.PrometheusRuleGroup))
    (rangeMap_perm : forall m, rangeMap m ≡ₚ map_to_list m)
    (h : RuleHandler) (namespace name : string) (w : world) :
  Strings.Contains namespace "." = false ->
  let uid := namespace +:+ "." +:+ name in
  (forall e,
     Client.ListRules_answer (clientTool h) w = Err e ->
     GetByUID rangeMap h uid w = (Done (Err e), listedOnce w))
  /\ (forall groupings groups g,
        Client.ListRules_answer (clientTool h) w = Ok groupings ->
        groupings !! namespace = Some groups ->
        g ∈ groups -> Models.Name g = name ->
        exists group,
          group ∈ groups /\ Models.Name group = name
          /\ GetByUID rangeMap h uid w
             = (Done (Ok (Grizzly.mkResource (APIVersion h) (Kind h)
                            (Models.Name group)
                            {[ "namespace" := namespace ]}
                            {[ "rules" := VSlice (Models.Rules group) ]})),
                listedOnce w))
  /\ (forall groupings groups before group after,
        Client.ListRules_answer (clientTool h) w = Ok groupings ->
        groupings !! namespace = Some groups ->
        groups = before ++ group :: after ->
        Forall (fun g => Models.Name g <> name) before ->
        Models.Name group = name ->
        GetByUID rangeMap h uid w
        = (Done (Ok (Grizzly.mkResource (APIVersion h) (Kind h)
                       (Models.Name group)
                       {[ "namespace" := namespace ]}
                       {[ "rules" := VSlice (Models.Rules group) ]})),
           listedOnce w))
  /\ (forall groupings,
        Client.ListRules_answer (clientTool h) w = Ok groupings ->
        (forall groups group,
           groupings !! namespace = Some groups -> group ∈ groups ->
           Models.Name group <> name) ->
        GetByUID rangeMap h uid w = (Done (Err ErrNotFound), listedOnce w))
  /\ (forall providerAPIVersion c,
        Kind (NewRuleHandler providerAPIVersion c)
        = PrometheusRuleGroupKind).
Proof.
  intros Hns uid. unfold GetByUID, uid.
  rewrite getRemoteRuleGroup_unfold, Cut_uid by done.
  split; [|split; [|split; [|split]]].
  - by intros e ->.
  - intros groupings groups g -> Hlookup Hin Hname.
    rewrite (scanGroupings_lookup rangeMap rangeMap_perm), Hlookup.
    destruct (scanGroups_exists h namespace name groups g Hin Hname)
      as (group & Hgroup & Hn & Hscan).
    exists group. by rewrite Hscan.
  - intros groupings groups before group after -> Hlookup -> Hbefore Hname.
    rewrite (scanGroupings_lookup rangeMap rangeMap_perm), Hlookup.
    by rewrite (scanGroups_found h namespace name before after group).
  - intros groupings -> Hnone.
    rewrite (scanGroupings_lookup rangeMap rangeMap_perm).
    destruct (groupings !! namespace) as [groups|] eqn:Hlookup; [|done].
    rewrite scanGroups_none; [done|].
    apply Forall_forall. intros group Hin. by apply (Hnone groups).
  - reflexivity.
Qed.

Lemma GetByUID_spec_witness :
  (GetByUID map_to_list (Sample.handler Sample.failing) "teamA.latency"
     Sample.start
   = (Done (Err (ClientError "503")), listedOnce Sample.start))
  /\ (GetByUID map_to_list
        (Sample.handler (Sample.serving Sample.remoteLatency))
        "teamA.latency" Sample.start
      = (Done (Ok (Grizzly.mkResource "grizzly.grafana.com/v1alpha1"
                     "PrometheusRuleGroup" "latency"
                     {[ "namespace" := "teamA" ]}
                     {[ "rules" := VSlice [VMap 1%positive] ]})),
         listedOnce Sample.start))
  /\ (GetByUID map_to_list
        (Sample.handler (Sample.serving Sample.remoteLatency))
        "teamA.missing" Sample.start
      = (Done (Err ErrNotFound), listedOnce Sample.start)).
Proof.
  assert (forall m : gmap string (list Models.PrometheusRuleGroup),
            map_to_list m ≡ₚ map_to_list m) as Hperm by reflexivity.
  split; [|split].
  - apply (proj1 (GetByUID_spec map_to_list Hperm
                    (Sample.handler Sample.failing) "teamA" "latency"
                    Sample.start eq_refl)).
    reflexivity.
  - apply (proj1 (proj2 (proj2 (GetByUID_spec map_to_list Hperm
             (Sample.handler (Sample.serving Sample.remoteLatency))
             "teamA" "latency" Sample.start eq_refl)))
             Sample.remoteLatency Sample.teamA []
             (Models.mkGroup "latency" [VMap 1%positive])
             [Models.mkGroup "errors" []]); try reflexivity.
    constructor.
  - apply (proj1 (proj2 (proj2 (proj2 (GetByUID_spec map_to_list Hperm
             (Sample.handler (Sample.serving Sample.remoteLatency))
             "teamA" "missing" Sample.start eq_refl))))
             Sample.remoteLatency); [reflexivity|].
    intros groups group Hlookup Hin.
    assert (groups = Sample.teamA) as ->.
    { unfold Sample.remoteLatency in Hlookup.
      rewrite lookup_singleton_eq in Hlookup. congruence. }
    unfold Sample.teamA in Hin.
    apply elem_of_cons in Hin as [->|Hin]; [discriminate|].
    apply elem_of_cons in Hin as [->|Hin]; [discriminate|].
    by apply elem_of_nil in Hin.
Defined.

(** ** Listing the composite identifiers *)

Lemma foldl_append_IDs (namespace : string)
    (groups : list Models.PrometheusRuleGroup) (IDs : list string) :
  foldl (fun IDs group =>
           IDs ++ [Fmt.Sprintf "%s.%s" [namespace; Models.Name group]])
        IDs groups
  = IDs ++ compositeIDs (namespace, groups).
Proof.
  revert IDs. induction groups as [|group groups IH]; intros IDs.
  - simpl. by rewrite app_nil_r.
  - cbn [foldl]. rewrite IH, Sprintf_uid. unfold compositeIDs.
    cbn [fst snd fmap list_fmap]. by rewrite <- app_assoc.
Qed.

Lemma foldl_range_IDs
    (entries : list (string * list Models.PrometheusRuleGroup))
    (IDs : list string) :
  foldl (fun IDs '(namespace, grouping) =>
           foldl (fun IDs group =>
                    IDs ++ [Fmt.Sprintf "%s.%s"
                              [namespace; Models.Name group]])
                 IDs grouping)
        IDs entries
  = IDs ++ (entries ≫= compositeIDs).
Proof.
  revert IDs.
  induction entries as [|[namespace grouping] entries IH]; intros IDs.
  - simpl. by rewrite app_nil_r.
  - cbn [foldl]. rewrite foldl_append_IDs, IH, bind_cons.
    by rewrite <- app_assoc.
Qed.

Lemma getRemoteRuleGroupList_unfold
    (rangeMap : gmap string (list Models.PrometheusRuleGroup) ->
                list (string * list Models.PrometheusRuleGroup))
    (h : RuleHandler) (w : world) :
  getRemoteRuleGroupList rangeMap h w
  = (Done (match Client.ListRules_answer (clientTool h) w with
           | Err e => Err e
           | Ok groupings => Ok (rangeMap groupings ≫= compositeIDs)
           end), listedOnce w).
Proof.
  unfold getRemoteRuleGroupList, bind, ListRules, ret.
  destruct (Client.ListRules_answer (clientTool h) w) as [groupings|e];
    [|reflexivity].
  by rewrite foldl_range_IDs.
Qed.

Lemma elem_of_compositeIDs (uid : string)
    (groupings : gmap string (list Models.PrometheusRuleGroup)) :
  uid ∈ map_to_list groupings ≫= compositeIDs
  <-> exists namespace groups group,
        groupings !! namespace = Some groups /\ group ∈ groups
        /\ uid = namespace +:+ "." +:+ Models.Name group.
Proof.
  rewrite list_elem_of_bind. split.
  - intros ([namespace groups] & Huid & Hentry).
    apply elem_of_map_to_list in Hentry.
    apply list_elem_of_fmap in Huid as (group & -> & Hgroup).
    by exists namespace, groups, group.
  - intros (namespace & groups & group & Hlookup & Hgroup & ->).
    exists (namespace, groups). split.
    + apply list_elem_of_fmap. by exists group.
    + by apply elem_of_map_to_list.
Qed.

(** C5. When the client's [ListRules] returns a grouping, [ListRemote]
    returns without error a sequence that holds, once for each group of
    each namespace, the composite identifier [namespace.group-name], and
    nothing else, in an order that follows the visit of the map; for the
    grouping with [g1] under [teamA] and [g2], [g3] under [teamB] these are
    exactly ["teamA.g1"], ["teamB.g2"] and ["teamB.g3"]. When [ListRules]
    fails, its error is returned as it is. *)
Theorem ListRemote_spec
    (rangeMap : gmap string (list Models.PrometheusRuleGroup) ->
                list (string * list Models.PrometheusRuleGroup))
    (rangeMap_perm : forall m, rangeMap m ≡ₚ map_to_list m)
    (h : RuleHandler) (w : world) :
  (forall e,
     Client.ListRules_answer (clientTool h) w = Err e ->
     ListRemote rangeMap h w = (Done (Err e), listedOnce w))
  /\ (forall groupings,
        Client.ListRules_answer (clientTool h) w = Ok groupings ->
        exists IDs,
          ListRemote rangeMap h w = (Done (Ok IDs), listedOnce w)
          /\ IDs = rangeMap groupings ≫= compositeIDs
          /\ IDs ≡ₚ map_to_list groupings ≫= compositeIDs
          /\ (forall uid,
                uid ∈ IDs
                <-> exists namespace groups group,
                      groupings !! namespace = Some groups
                      /\ group ∈ groups
                      /\ uid = namespace +:+ "." +:+ Models.Name group))
  /\ (Client.ListRules_answer (clientTool h) w = Ok Sample.remote ->
      exists IDs,
        ListRemote rangeMap h w = (Done (Ok IDs), listedOnce w)
        /\ IDs ≡ₚ ["teamA.g1"; "teamB.g2"; "teamB.g3"]).
Proof.
  unfold ListRemote. rewrite getRemoteRuleGroupList_unfold.
  split; [|split].
  - by intros e ->.
  - intros groupings ->. eexists. split; [reflexivity|].
    split; [reflexivity|]. split.
    + by rewrite rangeMap_perm.
    + intros uid. rewrite rangeMap_perm. apply elem_of_compositeIDs.
  - intros ->. eexists. split; [reflexivity|].
    rewrite rangeMap_perm. vm_compute. reflexivity.
Qed.

Lemma ListRemote_spec_witness :
  ListRemote map_to_list (Sample.handler Sample.failing) Sample.start
  = (Done (Err (ClientError "503")), listedOnce Sample.start)
  /\ exists IDs,
       ListRemote map_to_list (Sample.handler (Sample.serving Sample.remote))
         Sample.start
       = (Done (Ok IDs), listedOnce Sample.start)
       /\ IDs ≡ₚ ["teamA.g1"; "teamB.g2"; "teamB.g3"].
Proof.
  assert (forall m : gmap string (list Models.PrometheusRuleGroup),
            map_to_list m ≡ₚ map_to_list m) as Hperm by reflexivity.
  split.
  - apply (proj1 (ListRemote_spec map_to_list Hperm
                    (Sample.handler Sample.failing) Sample.start)).
    reflexivity.
  - apply (proj2 (proj2 (ListRemote_spec map_to_list Hperm
             (Sample.handler (Sample.serving Sample.remote))
             Sample.start))).
    reflexivity.
Defined.

(** ** The translation of one rule mapping *)

Lemma lookup_renameField_old (old new : string) (m : gmap string value) :
  renameField old new m !! old = None.
Proof. unfold renameField. apply lookup_delete_eq. Qed.

Lemma lookup_renameField_new (old new : string) (m : gmap string value) :
  old <> new -> renameField old new m !! new = Some (index m old).
Proof.
  intros Hne. unfold renameField.
  by rewrite lookup_delete_ne, lookup_insert_eq.
Qed.

Lemma lookup_renameField_ne (old new k : string) (m : gmap string value) :
  k <> old -> k <> new -> renameField old new m !! k = m !! k.
Proof.
  intros Hold Hnew. unfold renameField.
  by rewrite lookup_delete_ne, lookup_insert_ne.
Qed.

Lemma lookup_renamedByType_ne (k : string) (m : gmap string value) :
  k <> "name" -> k <> "record" -> k <> "alert" ->
  renamedByType m !! k = m !! k.
Proof.
  intros Hname Hrecord Halert. unfold renamedByType.
  destruct (eq_string (index m "type") "recording");
    [by apply lookup_renameField_ne|].
  destruct (eq_string (index m "type") "alerting");
    [by apply lookup_renameField_ne|done].
Qed.

Lemma lookup_translated_ne (k : string) (m : gmap string value) :
  k <> "query" -> k <> "expr" ->
  translated m !! k = renamedByType m !! k.
Proof.
  intros Hquery Hexpr. unfold translated. cbv zeta.
  destruct (not_nil (index (renamedByType m) "query")); [|done].
  by apply lookup_renameField_ne.
Qed.

Lemma index_renamedByType_query (m : gmap string value) :
  index (renamedByType m) "query" = index m "query".
Proof. unfold index. by rewrite lookup_renamedByType_ne. Qed.

Lemma translated_recording (m : gmap string value) :
  m !! "type" = Some (VString "recording") ->
  translated m !! "record" = Some (index m "name")
  /\ translated m !! "name" = None.
Proof.
  intros Htype. rewrite !lookup_translated_ne by done.
  assert (index m "type" = VString "recording") as Hidx
    by (unfold index; by rewrite Htype).
  unfold renamedByType. rewrite Hidx. simpl.
  split; [by apply lookup_renameField_new|apply lookup_renameField_old].
Qed.

Lemma translated_alerting (m : gmap string value) :
  m !! "type" = Some (VString "alerting") ->
  translated m !! "alert" = Some (index m "name")
  /\ translated m !! "name" = None.
Proof.
  intros Htype. rewrite !lookup_translated_ne by done.
  assert (index m "type" = VString "alerting") as Hidx
    by (unfold index; by rewrite Htype).
  unfold renamedByType. rewrite Hidx. simpl.
  split; [by apply lookup_renameField_new|apply lookup_renameField_old].
Qed.

Lemma translated_other_type (m : gmap string value) :
  eq_string (index m "type") "recording" = false ->
  eq_string (index m "type") "alerting" = false ->
  translated m !! "name" = m !! "name"
  /\ translated m !! "record" = m !! "record"
  /\ translated m !! "alert" = m !! "alert".
Proof.
  intros Hrecording Halerting. rewrite !lookup_translated_ne by done.
  unfold renamedByType. by rewrite Hrecording, Halerting.
Qed.

Lemma translated_query (m : gmap string value) (q : value) :
  m !! "query" = Some q -> q <> VNil ->
  translated m !! "expr" = Some q /\ translated m !! "query" = None.
Proof.
  intros Hquery Hq.
  assert (index m "query" = q) as Hidx by (unfold index; by rewrite Hquery).
  assert (not_nil q = true) as Hnot_nil by by destruct q.
  unfold translated. cbv zeta.
  rewrite index_renamedByType_query, Hidx, Hnot_nil.
  split; [|apply lookup_renameField_old].
  rewrite lookup_renameField_new by done.
  by rewrite index_renamedByType_query, Hidx.
Qed.

Lemma translated_no_query (m : gmap string value) :
  index m "query" = VNil ->
  translated m !! "expr" = m !! "expr"
  /\ translated m !! "query" = m !! "query".
Proof.
  intros Hquery. unfold translated. cbv zeta.
  rewrite index_renamedByType_query, Hquery. simpl.
  by rewrite !lookup_renamedByType_ne.
Qed.

Lemma translated_frame (m : gmap string value) (k : string) :
  k <> "name" -> k <> "record" -> k <> "alert" ->
  k <> "query" -> k <> "expr" ->
  translated m !! k = m !! k.
Proof.
  intros. by rewrite lookup_translated_ne, lookup_renamedByType_ne.
Qed.

Lemma translated_alertingRule :
  translated Sample.alertingRule = Sample.alertingRuleTranslated.
Proof. by vm_compute. Qed.

(** ** The loop of [writeRuleGroup] on the store *)

Lemma world_eta (w : world) : mkWorld (heap w) (trace w) = w.
Proof. by destruct w. Qed.

Lemma alter_present {A} (f : A -> A) (hp : gmap loc A) (l : loc) (m : A) :
  hp !! l = Some m -> alter f l hp = <[l := f m]> hp.
Proof.
  intros Hl. apply map_eq. intros j. rewrite lookup_alter, lookup_insert.
  case_decide; [subst; by rewrite Hl|done].
Qed.

Lemma alter_absent {A} (f : A -> A) (hp : gmap loc A) (l : loc) :
  hp !! l = None -> alter f l hp = hp.
Proof.
  intros Hl. apply map_eq. intros j. rewrite lookup_alter.
  case_decide; [subst; by rewrite Hl|done].
Qed.

(** The three statements that rename a field of the map object at [l]. *)
Lemma rename_in_place (l : loc) (old new : string) (w : world)
    (m : gmap string value) :
  heap w !! l = Some m ->
  (let* n := mapaccess l old in
   let* assigned := mapassign l new n in
   mapdelete l old) w
  = (Done tt, mkWorld (<[l := renameField old new m]> (heap w)) (trace w)).
Proof.
  intros Hl. unfold bind, mapaccess, mapassign, mapdelete. rewrite Hl.
  simpl. rewrite lookup_insert_eq. simpl. by rewrite insert_insert_eq.
Qed.

Lemma translateRule_map (rules : list value) (l : loc) (w : world) :
  translateRule rules (VMap l) w
  = (Done (rules ++ [VMap l]),
     mkWorld (alter translated l (heap w)) (trace w)).
Proof.
  unfold translateRule, assertMap. unfold bind at 1, ret at 1.
  destruct (heap w !! l) as [m|] eqn:Hl.
  - rewrite (alter_present _ _ _ _ Hl).
    assert (forall w1 m1,
              heap w1 !! l = Some m1 ->
              (let* q := mapaccess l "query" in
               let* moved :=
                 (if not_nil q then
                    let* q' := mapaccess l "query" in
                    let* assigned := mapassign l "expr" q' in
                    mapdelete l "query"
                  else ret tt) in
               ret (rules ++ [VMap l])) w1
              = (Done (rules ++ [VMap l]),
                 mkWorld
                   (<[l := if not_nil (index m1 "query")
                           then renameField "query" "expr" m1 else m1]>
                      (heap w1))
                   (trace w1))) as Hquery.
    { intros w1 m1 Hl1. unfold bind at 1. unfold mapaccess at 1.
      rewrite Hl1. unfold bind at 1.
      destruct (not_nil (index m1 "query")).
      - by rewrite (rename_in_place l "query" "expr" w1 m1 Hl1).
      - unfold ret. by rewrite (insert_id _ _ _ Hl1), world_eta. }
    unfold bind at 1. unfold mapaccess at 1. rewrite Hl. unfold bind at 1.
    unfold translated, renamedByType. cbv zeta.
    destruct (eq_string (index m "type") "recording").
    + rewrite (rename_in_place l "name" "record" w m Hl).
      rewrite (Hquery _ (renameField "name" "record" m))
        by apply lookup_insert_eq.
      simpl. by rewrite insert_insert_eq.
    + unfold bind at 1. unfold mapaccess at 1. rewrite Hl.
      destruct (eq_string (index m "type") "alerting").
      * rewrite (rename_in_place l "name" "alert" w m Hl).
        rewrite (Hquery _ (renameField "name" "alert" m))
          by apply lookup_insert_eq.
        simpl. by rewrite insert_insert_eq.
      * unfold ret at 1. by rewrite (Hquery w m Hl).
  - rewrite (alter_absent _ _ _ Hl).
    unfold bind, mapaccess, ret. repeat (rewrite Hl; simpl).
    by rewrite world_eta.
Qed.

Lemma translateRule_not_map (rules : list value) (v : value) (w : world) :
  (forall l, v <> VMap l) ->
  translateRule rules v w = (Panic TypeAssertion, w).
Proof. intros Hv. destruct v; try reflexivity. by destruct (Hv l). Qed.

Lemma rangeSlice_translateRule (locs : list loc) (rules : list value)
    (w : world) :
  rangeSlice translateRule (VMap <$> locs) rules w
  = (Done (rules ++ (VMap <$> locs)),
     mkWorld (rewritten locs (heap w)) (trace w)).
Proof.
  revert rules w. induction locs as [|l locs IH]; intros rules w.
  - simpl. unfold ret. by rewrite app_nil_r, world_eta.
  - cbn [fmap list_fmap rangeSlice]. unfold bind.
    rewrite translateRule_map, IH. simpl. by rewrite <- app_assoc.
Qed.

(** Whatever the slice holds, the loop makes no call to the client and
    writes to no map object outside the slice. *)
Lemma rangeSlice_frame (vs : list value) (rules : list value) (w : world) :
  trace (rangeSlice translateRule vs rules w).2 = trace w
  /\ forall l, VMap l ∉ vs ->
       heap (rangeSlice translateRule vs rules w).2 !! l = heap w !! l.
Proof.
  revert rules w. induction vs as [|v vs IH]; intros rules w; [done|].
  cbn [rangeSlice]. unfold bind.
  destruct v as [| | | | |l0];
    try (rewrite translateRule_not_map by done; done).
  rewrite translateRule_map.
  destruct (IH (rules ++ [VMap l0])
              (mkWorld (alter translated l0 (heap w)) (trace w)))
    as [Htrace Hheap].
  split; [done|]. intros l [Hne Hrest]%not_elem_of_cons.
  rewrite (Hheap l Hrest). simpl. rewrite lookup_alter_ne; [done|].
  congruence.
Qed.

Lemma rewritten_notin (locs : list loc) (hp : gmap loc (gmap string value))
    (l : loc) :
  l ∉ locs -> rewritten locs hp !! l = hp !! l.
Proof.
  revert hp. induction locs as [|l0 locs IH]; intros hp; [done|].
  intros [Hne Hrest]%not_elem_of_cons. unfold rewritten in *. simpl.
  rewrite (IH _ Hrest). by rewrite lookup_alter_ne.
Qed.

Lemma rewritten_NoDup (locs : list loc) (hp : gmap loc (gmap string value))
    (l : loc) :
  NoDup locs -> l ∈ locs -> rewritten locs hp !! l = translated <$> hp !! l.
Proof.
  revert hp. induction locs as [|l0 locs IH]; intros hp.
  - intros _ Hin. by apply elem_of_nil in Hin.
  - intros [Hfresh Hnodup]%NoDup_cons Hin.
    change (rewritten (l0 :: locs) hp)
      with (rewritten locs (alter translated l0 hp)).
    apply elem_of_cons in Hin as [->|Hin].
    + rewrite (rewritten_notin _ _ _ Hfresh). apply lookup_alter_eq.
    + rewrite (IH _ Hnodup Hin). rewrite lookup_alter_ne; [done|].
      intros ->. done.
Qed.

(** ** Writing a rule group *)

Lemma rewritten_lookup (locs : list loc) (hp : gmap loc (gmap string value))
    (l : loc) :
  rewritten locs hp !! l = Nat.iter (visits l locs) translated <$> hp !! l.
Proof.
  revert hp. induction locs as [|l0 locs IH]; intros hp.
  - simpl. by destruct (hp !! l).
  - change (rewritten (l0 :: locs) hp)
      with (rewritten locs (alter translated l0 hp)).
    rewrite IH. unfold visits. destruct (decide (l0 = l)) as [->|Hne].
    + rewrite filter_cons_True by done. rewrite lookup_alter_eq.
      destruct (hp !! l) as [m|]; [|done]. simpl. f_equal.
      exact (eq_sym (Nat.iter_succ_r _ translated m)).
    + rewrite filter_cons_False by done. by rewrite lookup_alter_ne.
Qed.

Lemma writeRuleGroup_slice (h : RuleHandler) (resource : Grizzly.Resource)
    (vs : list value) (w : world) :
  Grizzly.Spec resource !! "rules" = Some (VSlice vs) ->
  writeRuleGroup h resource w
  = match rangeSlice translateRule vs [] w with
    | (Done newRules, w1) =>
        let grouping :=
          Models.mkGrouping (Grizzly.GetMetadata resource "namespace")
            [Models.mkGroup (Grizzly.Name resource) newRules] in
        (Done (Client.CreateRules_answer (clientTool h) w1 grouping),
         pushedOnce grouping w1)
    | (Panic p, w1) => (Panic p, w1)
    end.
Proof.
  intros Hrules. unfold writeRuleGroup, index. rewrite Hrules. simpl.
  unfold bind at 1. unfold ret at 1. unfold bind.
  by destruct (rangeSlice translateRule vs [] w) as [[newRules|p] w1].
Qed.

Lemma writeRuleGroup_not_slice (h : RuleHandler)
    (resource : Grizzly.Resource) (w : world) :
  (forall vs, Grizzly.Spec resource !! "rules" <> Some (VSlice vs)) ->
  writeRuleGroup h resource w = (Panic TypeAssertion, w).
Proof.
  intros Hrules. unfold writeRuleGroup, index.
  destruct (Grizzly.Spec resource !! "rules") as [[| | | |vs|]|];
    try reflexivity.
  by destruct (Hrules vs).
Qed.

Lemma writeRuleGroup_rules (h : RuleHandler) (resource : Grizzly.Resource)
    (locs : list loc) (w : world) :
  Grizzly.Spec resource !! "rules" = Some (VSlice (VMap <$> locs)) ->
  writeRuleGroup h resource w
  = (Done (Client.CreateRules_answer (clientTool h)
             (mkWorld (rewritten locs (heap w)) (trace w))
             (pushed resource locs)),
     pushedOnce (pushed resource locs)
       (mkWorld (rewritten locs (heap w)) (trace w))).
Proof.
  intros Hrules. rewrite (writeRuleGroup_slice h resource _ w Hrules).
  by rewrite rangeSlice_translateRule.
Qed.

Lemma writeRuleGroup_frame (h : RuleHandler) (resource : Grizzly.Resource)
    (w : world) :
  (forall l, VMap l ∉ rulesOf resource ->
     heap (writeRuleGroup h resource w).2 !! l = heap w !! l)
  /\ match writeRuleGroup h resource w with
     | (Done answer, w') =>
         exists rules w1,
           let grouping :=
             Models.mkGrouping (Grizzly.GetMetadata resource "namespace")
               [Models.mkGroup (Grizzly.Name resource) rules] in
           trace w' = trace w ++ [CreateRulesCall grouping]
           /\ answer = Client.CreateRules_answer (clientTool h) w1 grouping
     | (Panic p, w') => trace w' = trace w
     end.
Proof.
  destruct (Grizzly.Spec resource !! "rules") as [v|] eqn:Hrules.
  2: { rewrite writeRuleGroup_not_slice by (intros vs; congruence). done. }
  destruct v as [| | | |vs|];
    try (rewrite writeRuleGroup_not_slice by (intros vs; congruence); done).
  rewrite (writeRuleGroup_slice h resource vs w Hrules).
  unfold rulesOf. rewrite Hrules.
  destruct (rangeSlice_frame vs [] w) as [Htrace Hheap].
  destruct (rangeSlice translateRule vs [] w) as [[newRules|p] w1];
    simpl in *.
  - split; [done|]. exists newRules, w1. by rewrite Htrace.
  - done.
Qed.

(** C1. For a resource whose ["rules"] is a sequence of rule mappings,
    [Add] and [Update] push one group, named after the resource and tagged
    with its namespace, whose rules are those mappings, each translated
    once for each place that its map object has in the sequence, hence
    once when the mappings are distinct objects. Translated means: with ["type"] equal to ["recording"] the value of
    ["name"] is stored under ["record"] and ["name"] is removed; with
    ["alerting"], under ["alert"]; with any other or no type ["name"],
    ["record"] and ["alert"] are as they were; a ["query"] that is not nil
    is stored under ["expr"] and ["query"] is removed, whatever the type;
    every other key is as it was. The alerting rule named ["HighLatency"]
    with query ["up == 0"] becomes the mapping with ["type"], ["alert"] and
    ["expr"]. *)
Theorem writeRuleGroup_translates (h : RuleHandler)
    (existing resource : Grizzly.Resource) (locs : list loc) (w : world) :
  Grizzly.Spec resource !! "rules" = Some (VSlice (VMap <$> locs)) ->
  (exists w',
     Add h resource w
     = (Done (Client.CreateRules_answer (clientTool h)
                (mkWorld (heap w') (trace w)) (pushed resource locs)), w')
     /\ Update h existing resource w = Add h resource w
     /\ trace w' = trace w ++ [CreateRulesCall (pushed resource locs)]
     /\ (forall l,
           heap w' !! l
           = Nat.iter (visits l locs) translated <$> heap w !! l)
     /\ (NoDup locs ->
         forall l, l ∈ locs -> heap w' !! l = translated <$> heap w !! l))
  /\ (forall m : gmap string value,
        (m !! "type" = Some (VString "recording") ->
         translated m !! "record" = Some (index m "name")
         /\ translated m !! "name" = None)
        /\ (m !! "type" = Some (VString "alerting") ->
            translated m !! "alert" = Some (index m "name")
            /\ translated m !! "name" = None)
        /\ (eq_string (index m "type") "recording" = false ->
            eq_string (index m "type") "alerting" = false ->
            translated m !! "name" = m !! "name"
            /\ translated m !! "record" = m !! "record"
            /\ translated m !! "alert" = m !! "alert")
        /\ (forall q, m !! "query" = Some q -> q <> VNil ->
              translated m !! "expr" = Some q
              /\ translated m !! "query" = None)
        /\ (index m "query" = VNil ->
            translated m !! "expr" = m !! "expr"
            /\ translated m !! "query" = m !! "query")
        /\ (forall k, k <> "name" -> k <> "record" -> k <> "alert" ->
              k <> "query" -> k <> "expr" ->
              translated m !! k = m !! k))
  /\ translated
       {[ "type" := VString "alerting";
          "name" := VString "HighLatency";
          "query" := VString "up == 0" ]}
     = {[ "type" := VString "alerting";
          "alert" := VString "HighLatency";
          "expr" := VString "up == 0" ]}.
Proof.
  intros Hrules. split; [|split].
  - exists (pushedOnce (pushed resource locs)
              (mkWorld (rewritten locs (heap w)) (trace w))).
    unfold Update, Add.
    rewrite (writeRuleGroup_rules h resource locs w Hrules).
    split; [reflexivity|]. split; [reflexivity|]. split; [reflexivity|].
    split.
    + intros l. simpl. apply rewritten_lookup.
    + intros Hnodup l Hl. simpl. by apply rewritten_NoDup.
  - intros m. split; [apply translated_recording|].
    split; [apply translated_alerting|].
    split; [apply translated_other_type|].
    split; [apply translated_query|].
    split; [apply translated_no_query|apply translated_frame].
  - apply translated_alertingRule.
Qed.

Lemma writeRuleGroup_translates_witness :
  exists w',
    Add (Sample.handler (Sample.serving Sample.remote)) Sample.latency
      Sample.start = (Done None, w')
    /\ trace w' = [CreateRulesCall (pushed Sample.latency [1; 2]%positive)]
    /\ heap w' !! 1%positive = Some Sample.alertingRuleTranslated.
Proof.
  assert (NoDup [1; 2]%positive) as Hnodup
    by (apply NoDup_cons; split;
        [by intros ?%list_elem_of_singleton|apply NoDup_singleton]).
  destruct (writeRuleGroup_translates
              (Sample.handler (Sample.serving Sample.remote))
              Sample.latency Sample.latency [1; 2]%positive Sample.start
              eq_refl)
    as [(w' & Hadd & _ & Htrace & _ & Hheap) _].
  exists w'. split; [exact Hadd|]. split; [exact Htrace|].
  etrans; [apply (Hheap Hnodup 1%positive); by left|]. by vm_compute.
Defined.

(** The map object listed twice in a rule sequence is translated twice:
    the second visit finds no ["name"] and stores nil under ["record"]. *)
Remark rule_listed_twice :
  let w' := (Add (Sample.handler (Sample.serving Sample.remote))
               Sample.twice Sample.start).2 in
  heap w' !! 2%positive
  = Some {[ "type" := VString "recording"; "record" := VNil ]}.
Proof. by vm_compute. Qed.

Lemma rangeSlice_Panic (vs rules : list value) (w w1 : world) (p : panic) :
  rangeSlice translateRule vs rules w = (Panic p, w1) ->
  p = TypeAssertion /\ ~ (exists locs : list loc, vs = VMap <$> locs).
Proof.
  revert rules w. induction vs as [|v vs IH]; intros rules w; [done|].
  cbn [rangeSlice]. unfold bind.
  destruct v as [| | | | |l0];
    try (rewrite translateRule_not_map by done; intros [= <- _];
         split; [done|]; by intros [[|l locs] Hlocs]).
  rewrite translateRule_map. intros [-> Hvs]%IH. split; [done|].
  intros [[|l locs] Hlocs]; [done|]. injection Hlocs as _ ->.
  apply Hvs. by exists locs.
Qed.

Lemma writeRuleGroup_Panic (h : RuleHandler) (resource : Grizzly.Resource)
    (w w' : world) (p : panic) :
  writeRuleGroup h resource w = (Panic p, w') ->
  p = TypeAssertion
  /\ ~ (exists locs : list loc,
          Grizzly.Spec resource !! "rules" = Some (VSlice (VMap <$> locs))).
Proof.
  destruct (Grizzly.Spec resource !! "rules") as [v|] eqn:Hrules.
  2: { rewrite writeRuleGroup_not_slice by (intros vs; congruence).
       intros [= <- _]. split; [done|]. by intros [locs Hlocs]. }
  destruct v as [| | | |vs|];
    try (rewrite writeRuleGroup_not_slice by (intros vs; congruence);
         intros [= <- _]; split; [done|]; by intros [locs Hlocs]).
  rewrite (writeRuleGroup_slice h resource vs w Hrules).
  destruct (rangeSlice translateRule vs [] w) as [[newRules|p'] w1] eqn:Hloop;
    [done|].
  intros [= <- _]. destruct (rangeSlice_Panic _ _ _ _ _ Hloop) as [-> Hvs].
  split; [done|]. intros [locs [= ->]]. apply Hvs. by exists locs.
Qed.

(** C3. [Update existing resource] is the very computation of
    [Add resource], whatever [existing] is: both are the translate-and-push
    routine. On a resource whose rules are a sequence of mappings both
    return the answer of the client's create operation, called exactly
    once with the one-group grouping named after the resource and tagged
    with its namespace, and make no other call to the client. They panic,
    on a type assertion and before reaching the client, only when the
    rules are not a sequence of mappings. *)
Theorem Update_is_Add (h : RuleHandler)
    (existing existing' resource : Grizzly.Resource) (w : world) :
  Update h existing resource w = Add h resource w
  /\ Update h existing resource w = Update h existing' resource w
  /\ Add h resource w = writeRuleGroup h resource w
  /\ (forall locs,
        Grizzly.Spec resource !! "rules" = Some (VSlice (VMap <$> locs)) ->
        let grouping :=
          Models.mkGrouping (Grizzly.GetMetadata resource "namespace")
            [Models.mkGroup (Grizzly.Name resource) (VMap <$> locs)] in
        let answer :=
          Client.CreateRules_answer (clientTool h)
            (mkWorld (rewritten locs (heap w)) (trace w)) grouping in
        let w' :=
          mkWorld (rewritten locs (heap w))
                  (trace w ++ [CreateRulesCall grouping]) in
        Update h existing resource w = (Done answer, w')
        /\ Add h resource w = (Done answer, w'))
  /\ (forall p w',
        Update h existing resource w = (Panic p, w') ->
        p = TypeAssertion
        /\ trace w' = trace w
        /\ ~ (exists locs : list loc,
                Grizzly.Spec resource !! "rules"
                = Some (VSlice (VMap <$> locs))))
  /\ match Update h existing resource w with
     | (Done answer, w') =>
         exists rules w1,
           let grouping :=
             Models.mkGrouping (Grizzly.GetMetadata resource "namespace")
               [Models.mkGroup (Grizzly.Name resource) rules] in
           trace w' = trace w ++ [CreateRulesCall grouping]
           /\ answer = Client.CreateRules_answer (clientTool h) w1 grouping
     | (Panic p, w') => trace w' = trace w
     end.
Proof.
  split; [reflexivity|]. split; [reflexivity|]. split; [reflexivity|].
  unfold Update, Add. split; [|split].
  - intros locs Hrules. cbv zeta.
    by rewrite (writeRuleGroup_rules h resource locs w Hrules).
  - intros p w' Hpanic.
    destruct (writeRuleGroup_Panic h resource w w' p Hpanic) as [-> Hrules].
    split; [done|]. split; [|done].
    pose proof (proj2 (writeRuleGroup_frame h resource w)) as Htrace.
    by rewrite Hpanic in Htrace.
  - apply writeRuleGroup_frame.
Qed.

Lemma Update_is_Add_witness :
  let h := Sample.handler Sample.failing in
  let grouping :=
    Models.mkGrouping "teamA"
      [Models.mkGroup "latency" [VMap 1%positive; VMap 2%positive]] in
  Update h Sample.orphan Sample.latency Sample.start
  = (Done (Some (ClientError "503")),
     mkWorld (rewritten [1; 2]%positive Sample.store)
             [CreateRulesCall grouping])
  /\ (TypeAssertion = TypeAssertion
      /\ trace Sample.start = trace Sample.start
      /\ ~ (exists locs : list loc,
              Grizzly.Spec Sample.orphan !! "rules"
              = Some (VSlice (VMap <$> locs)))).
Proof.
  intros h grouping.
  destruct (Update_is_Add h Sample.orphan Sample.latency Sample.latency
              Sample.start) as (_ & _ & _ & Hdone & _ & _).
  destruct (Update_is_Add h Sample.latency Sample.latency Sample.orphan
              Sample.start) as (_ & _ & _ & _ & Hpanic & _).
  split.
  - apply (Hdone [1; 2]%positive). reflexivity.
  - apply (Hpanic TypeAssertion Sample.start). by vm_compute.
Defined.

(** C4, counterexample. [Add] on the sample resource changes the rule
    mapping that the resource holds: the caller's alerting rule has lost
    ["name"] and ["query"] when [Add] returns. *)
Lemma Add_rewrites_the_resource :
  ~ sameRules Sample.latency Sample.start
      (Add (Sample.handler (Sample.serving Sample.remote)) Sample.latency
         Sample.start).2.
Proof.
  intros Hsame. specialize (Hsame 1%positive).
  assert (VMap 1%positive ∈ rulesOf Sample.latency) as Hin by (by left).
  apply Hsame in Hin.
  apply (f_equal (fun o => o ≫= (fun m : gmap string value => m !! "name")))
    in Hin.
  vm_compute in Hin. discriminate.
Qed.

(** C4, amended. The operations that only compute leave the world as it
    was, and [GetRemote] leaves every map object as it was. [Add] and
    [Update] never write to a map object outside the resource's rule
    sequence, but they rewrite the rule mappings of the resource where they
    are: when they return, each (distinct) rule mapping of the resource
    holds its translation, and the pushed group refers to these same map
    objects, not to copies. *)
Theorem adapter_writes_rules_in_place
    (sep : ascii)
    (rangeMap : gmap string (list Models.PrometheusRuleGroup) ->
                list (string * list Models.PrometheusRuleGroup))
    (h : RuleHandler) (existing resource : Grizzly.Resource)
    (filetype : string) (w : world) :
  ((ResourceFilePath sep h resource filetype w).2 = w
   /\ (Validate h resource w).2 = w
   /\ (GetUID h resource w).2 = w
   /\ (GetSpecUID h resource w).2 = w
   /\ heap (GetRemote rangeMap h resource w).2 = heap w)
  /\ (forall l, VMap l ∉ rulesOf resource ->
        heap (Add h resource w).2 !! l = heap w !! l
        /\ heap (Update h existing resource w).2 !! l = heap w !! l)
  /\ (forall locs,
        Grizzly.Spec resource !! "rules" = Some (VSlice (VMap <$> locs)) ->
        NoDup locs ->
        (forall l, l ∈ locs ->
           heap (Add h resource w).2 !! l = translated <$> heap w !! l
           /\ heap (Update h existing resource w).2 !! l
              = translated <$> heap w !! l)
        /\ trace (Add h resource w).2
           = trace w ++ [CreateRulesCall (pushed resource locs)]
        /\ trace (Update h existing resource w).2
           = trace w ++ [CreateRulesCall (pushed resource locs)]).
Proof.
  split; [|split].
  - split; [done|]. split.
    { rewrite Validate_cases.
      destruct (Grizzly.Spec resource !! "uid") as [[| | |uid| |]|];
        try reflexivity.
      by destruct (String.eqb uid (Grizzly.Name resource)). }
    split. { unfold GetUID. by destruct (negb _). }
    split; [done|].
    unfold GetRemote. rewrite getRemoteRuleGroup_unfold.
    by destruct (Strings.Cut _ _) as [[ns nm]|].
  - intros l Hl. unfold Add, Update.
    split; by apply writeRuleGroup_frame.
  - intros locs Hrules Hnodup. unfold Add, Update.
    rewrite (writeRuleGroup_rules h resource locs w Hrules). simpl.
    split; [|done]. intros l Hl. split; by apply rewritten_NoDup.
Qed.

Lemma adapter_writes_rules_in_place_witness :
  let w' := (Add (Sample.handler (Sample.serving Sample.remote))
               Sample.latency Sample.start).2 in
  heap w' !! 3%positive = heap Sample.start !! 3%positive
  /\ heap w' !! 1%positive = Some Sample.alertingRuleTranslated
  /\ trace w' = [CreateRulesCall (pushed Sample.latency [1; 2]%positive)].
Proof.
  intros w'.
  assert (NoDup [1; 2]%positive) as Hnodup
    by (apply NoDup_cons; split;
        [by intros ?%list_elem_of_singleton|apply NoDup_singleton]).
  destruct (adapter_writes_rules_in_place "/" map_to_list
              (Sample.handler (Sample.serving Sample.remote))
              Sample.latency Sample.latency "yaml" Sample.start)
    as (_ & Hframe & Hrules).
  destruct (Hrules [1; 2]%positive eq_refl Hnodup) as (Hheap & Htrace & _).
  split; [|split].
  - apply Hframe. unfold rulesOf. simpl.
    intros Hin. apply elem_of_cons in Hin as [Heq|Hin]; [discriminate|].
    apply elem_of_cons in Hin as [Heq|Hin]; [discriminate|].
    by apply elem_of_nil in Hin.
  - etrans; [apply (Hheap 1%positive); by left|]. by vm_compute.
  - exact Htrace.
Defined.

(** * Further properties of the handler *)

(** ** Malformed rule sequences *)

Lemma rangeSlice_translateRule_app (locs : list loc) (vs rules : list value)
    (w : world) :
  rangeSlice translateRule ((VMap <$> locs) ++ vs) rules w
  = rangeSlice translateRule vs (rules ++ (VMap <$> locs))
      (mkWorld (rewritten locs (heap w)) (trace w)).
Proof.
  revert rules w. induction locs as [|l locs IH]; intros rules w.
  - simpl. by rewrite app_nil_r, world_eta.
  - cbn [fmap list_fmap app rangeSlice]. unfold bind at 1.
    rewrite translateRule_map.
    change (list_fmap loc value VMap locs) with (VMap <$> locs).
    rewrite IH. simpl. by rewrite <- app_assoc.
Qed.

(** X1. When the spec of the resource has no ["rules"] entry, or holds
    under it something that is not a sequence, [Add] and [Update] panic on
    the type assertion; no call to the client has been made and no map
    object has been written. *)
Theorem Add_without_rule_sequence (h : RuleHandler)
    (existing resource : Grizzly.Resource) (w : world) :
  (forall vs, Grizzly.Spec resource !! "rules" <> Some (VSlice vs)) ->
  Add h resource w = (Panic TypeAssertion, w)
  /\ Update h existing resource w = (Panic TypeAssertion, w).
Proof.
  intros Hrules. unfold Add, Update.
  by rewrite writeRuleGroup_not_slice.
Qed.

Lemma Add_without_rule_sequence_witness :
  Add (Sample.handler (Sample.serving Sample.remote)) Sample.orphan
    Sample.start = (Panic TypeAssertion, Sample.start)
  /\ Update (Sample.handler (Sample.serving Sample.remote)) Sample.latency
       Sample.orphan Sample.start = (Panic TypeAssertion, Sample.start).
Proof.
  apply (Add_without_rule_sequence
           (Sample.handler (Sample.serving Sample.remote))
           Sample.latency Sample.orphan Sample.start).
  intros vs. vm_compute. discriminate.
Defined.

(** X2. When the rule sequence holds, after the mappings at [locs], an
    element that is not a mapping, [Add] panics on the type assertion at
    that element: nothing is pushed and no call to the client is made, but
    the mappings before the element have already been translated where
    they are; the map objects that are not among them are untouched. *)
Theorem Add_stops_at_non_mapping (h : RuleHandler)
    (resource : Grizzly.Resource) (locs : list loc) (v : value)
    (rest : list value) (w : world) :
  Grizzly.Spec resource !! "rules"
  = Some (VSlice ((VMap <$> locs) ++ v :: rest)) ->
  (forall l, v <> VMap l) ->
  Add h resource w
  = (Panic TypeAssertion, mkWorld (rewritten locs (heap w)) (trace w))
  /\ (forall l,
        heap (Add h resource w).2 !! l
        = Nat.iter (visits l locs) translated <$> heap w !! l)
  /\ (forall l, l ∉ locs -> heap (Add h resource w).2 !! l = heap w !! l).
Proof.
  intros Hrules Hv.
  assert (Add h resource w
          = (Panic TypeAssertion,
             mkWorld (rewritten locs (heap w)) (trace w))) as Hadd.
  { unfold Add. rewrite (writeRuleGroup_slice h resource _ w Hrules).
    rewrite rangeSlice_translateRule_app. cbn [rangeSlice]. unfold bind.
    by rewrite (translateRule_not_map _ v _ Hv). }
  rewrite Hadd. simpl. split; [done|]. split.
  - intros l. apply rewritten_lookup.
  - intros l Hl. by apply rewritten_notin.
Qed.

Lemma Add_stops_at_non_mapping_witness :
  let w' := mkWorld (rewritten [1%positive] Sample.store) [] in
  Add (Sample.handler (Sample.serving Sample.remote)) Further.broken
    Sample.start = (Panic TypeAssertion, w')
  /\ heap w' !! 1%positive = Some Sample.alertingRuleTranslated
  /\ heap w' !! 2%positive = Some Sample.recordingRule.
Proof.
  intros w'.
  destruct (Add_stops_at_non_mapping
              (Sample.handler (Sample.serving Sample.remote))
              Further.broken [1%positive] (VString "oops")
              [VMap 2%positive] Sample.start eq_refl)
    as (Hadd & _ & _); [discriminate|].
  split; [exact Hadd|]. split; by vm_compute.
Defined.

(** ** The store under [Add] *)

Lemma rangeSlice_dom (vs rules : list value) (w : world) :
  dom (heap (rangeSlice translateRule vs rules w).2) = dom (heap w).
Proof.
  revert rules w. induction vs as [|v vs IH]; intros rules w; [done|].
  cbn [rangeSlice]. unfold bind.
  destruct v as [| | | | |l0];
    try (rewrite translateRule_not_map by done; done).
  rewrite translateRule_map, IH. simpl. apply dom_alter_L.
Qed.

(** X3. [Add] and [Update] neither create nor remove a map object: whatever
    the resource holds and however the call ends, the store has the same
    addresses afterwards as before. *)
Theorem Add_keeps_the_addresses (h : RuleHandler)
    (existing resource : Grizzly.Resource) (w : world) :
  dom (heap (Add h resource w).2) = dom (heap w)
  /\ dom (heap (Update h existing resource w).2) = dom (heap w).
Proof.
  assert (dom (heap (writeRuleGroup h resource w).2) = dom (heap w)) as H.
  { destruct (Grizzly.Spec resource !! "rules") as [v|] eqn:Hrules.
    2: { by rewrite writeRuleGroup_not_slice by (intros vs; congruence). }
    destruct v as [| | | |vs|];
      try (by rewrite writeRuleGroup_not_slice
             by (intros vs; congruence)).
    rewrite (writeRuleGroup_slice h resource vs w Hrules).
    pose proof (rangeSlice_dom vs [] w) as Hdom.
    by destruct (rangeSlice translateRule vs [] w) as [[newRules|p] w1]. }
  by split.
Qed.

(** ** Translating more than once *)

Lemma translated_type (m : gmap string value) :
  index (translated m) "type" = index m "type".
Proof. unfold index. by rewrite translated_frame. Qed.

Lemma translated_index_name (m : gmap string value) :
  eq_string (index m "type") "recording"
  || eq_string (index m "type") "alerting" = true ->
  index (translated m) "name" = VNil.
Proof.
  intros Htype. unfold index at 1.
  rewrite lookup_translated_ne by done. unfold renamedByType.
  destruct (eq_string (index m "type") "recording");
    [by rewrite lookup_renameField_old|].
  destruct (eq_string (index m "type") "alerting");
    [by rewrite lookup_renameField_old|done].
Qed.

Lemma translated_index_query (m : gmap string value) :
  index (translated m) "query" = VNil.
Proof.
  unfold translated. cbv zeta.
  destruct (not_nil (index (renamedByType m) "query")) eqn:Hq.
  - unfold index at 1. by rewrite lookup_renameField_old.
  - by destruct (index (renamedByType m) "query").
Qed.

Lemma translated_untyped (m : gmap string value) :
  eq_string (index m "type") "recording" = false ->
  eq_string (index m "type") "alerting" = false ->
  index m "query" = VNil ->
  translated m = m.
Proof.
  intros Hrecording Halerting Hquery. unfold translated, renamedByType.
  by rewrite Hrecording, Halerting, Hquery.
Qed.

Lemma translated_twice_untyped (m : gmap string value) :
  eq_string (index m "type") "recording" = false ->
  eq_string (index m "type") "alerting" = false ->
  translated (translated m) = translated m.
Proof.
  intros Hrecording Halerting. apply translated_untyped.
  - by rewrite translated_type.
  - by rewrite translated_type.
  - apply translated_index_query.
Qed.

Lemma translated_twice_record (m : gmap string value) :
  m !! "type" = Some (VString "recording") ->
  translated (translated m) !! "record" = Some VNil
  /\ translated (translated m) !! "name" = None.
Proof.
  intros Htype.
  assert (index m "type" = VString "recording") as Hidx
    by (unfold index; by rewrite Htype).
  assert (translated m !! "type" = Some (VString "recording")) as Htype'
    by (by rewrite translated_frame).
  destruct (translated_recording _ Htype') as [Hrecord Hname].
  split; [|done]. rewrite Hrecord. f_equal.
  apply translated_index_name. by rewrite Hidx.
Qed.

Lemma translated_twice_alert (m : gmap string value) :
  m !! "type" = Some (VString "alerting") ->
  translated (translated m) !! "alert" = Some VNil
  /\ translated (translated m) !! "name" = None.
Proof.
  intros Htype.
  assert (index m "type" = VString "alerting") as Hidx
    by (unfold index; by rewrite Htype).
  assert (translated m !! "type" = Some (VString "alerting")) as Htype'
    by (by rewrite translated_frame).
  destruct (translated_alerting _ Htype') as [Halert Hname].
  split; [|done]. rewrite Halert. f_equal.
  apply translated_index_name. by rewrite Hidx.
Qed.

(** X4. Pushing the same resource a second time, as a retry does, pushes
    rules that were translated twice, because the first call has rewritten
    them where they are: a recording rule then holds nil under ["record"],
    an alerting rule nil under ["alert"], whatever ["name"] held at first.
    A rule of another or no type is pushed the second time as it was the
    first time. Both calls reach the client, each with one create call. *)
Theorem Add_again (h : RuleHandler) (resource : Grizzly.Resource)
    (locs : list loc) (w : world) :
  Grizzly.Spec resource !! "rules" = Some (VSlice (VMap <$> locs)) ->
  NoDup locs ->
  let w1 := (Add h resource w).2 in
  let w2 := (Add h resource w1).2 in
  trace w2
  = trace w ++ [CreateRulesCall (pushed resource locs);
                CreateRulesCall (pushed resource locs)]
  /\ (forall l m,
        l ∈ locs -> heap w !! l = Some m ->
        heap w1 !! l = Some (translated m)
        /\ heap w2 !! l = Some (translated (translated m))
        /\ (m !! "type" = Some (VString "recording") ->
            translated m !! "record" = Some (index m "name")
            /\ translated (translated m) !! "record" = Some VNil)
        /\ (m !! "type" = Some (VString "alerting") ->
            translated m !! "alert" = Some (index m "name")
            /\ translated (translated m) !! "alert" = Some VNil)
        /\ (eq_string (index m "type") "recording" = false ->
            eq_string (index m "type") "alerting" = false ->
            translated (translated m) = translated m)).
Proof.
  intros Hrules Hnodup w1 w2. unfold w2, w1, Add.
  rewrite !(writeRuleGroup_rules h resource locs _ Hrules). simpl.
  split; [by rewrite <- app_assoc|].
  intros l m Hl Hm.
  rewrite !(rewritten_NoDup locs _ l Hnodup Hl), Hm. simpl.
  split; [done|]. split; [done|]. split; [|split].
  - intros Htype. split; [by apply translated_recording|].
    by apply translated_twice_record.
  - intros Htype. split; [by apply translated_alerting|].
    by apply translated_twice_alert.
  - apply translated_twice_untyped.
Qed.

Lemma Add_again_witness :
  let h := Sample.handler Sample.failing in
  let w2 := (Add h Sample.latency (Add h Sample.latency Sample.start).2).2 in
  trace w2
  = [CreateRulesCall (pushed Sample.latency [1; 2]%positive);
     CreateRulesCall (pushed Sample.latency [1; 2]%positive)]
  /\ translated Sample.recordingRule !! "record" = Some (VString "X")
  /\ translated (translated Sample.recordingRule) !! "record" = Some VNil
  /\ heap w2 !! 2%positive
     = Some (translated (translated Sample.recordingRule)).
Proof.
  intros h w2.
  assert (NoDup [1; 2]%positive) as Hnodup
    by (apply NoDup_cons; split;
        [by intros ?%list_elem_of_singleton|apply NoDup_singleton]).
  destruct (Add_again h Sample.latency [1; 2]%positive Sample.start
              eq_refl Hnodup) as [Htrace Hrule].
  destruct (Hrule 2%positive Sample.recordingRule) as
    (_ & Hw2 & Hrecord & _); [by right; left|reflexivity|].
  destruct (Hrecord eq_refl) as [Hfirst Hsecond].
  split; [exact Htrace|]. split; [exact Hfirst|].
  split; [exact Hsecond|exact Hw2].
Defined.

(** ** What the lookup returns *)

Lemma fetched_GetUID (h : RuleHandler) (namespace : string)
    (group : Models.PrometheusRuleGroup) (w : world) :
  GetUID h (fetched h namespace group) w
  = (Done (Ok (namespace +:+ "." +:+ Models.Name group)), w).
Proof.
  apply (GetUID_lookup h (fetched h namespace group) w namespace).
  unfold fetched. simpl. apply lookup_singleton_eq.
Qed.

Lemma fetched_Validate (h : RuleHandler) (namespace : string)
    (group : Models.PrometheusRuleGroup) (w : world) :
  Validate h (fetched h namespace group) w = (Done None, w).
Proof.
  rewrite Validate_cases. unfold Grizzly.Spec, fetched. simpl.
  by rewrite lookup_singleton_ne.
Qed.

Lemma GetByUID_Ok (rangeMap : gmap string (list Models.PrometheusRuleGroup) ->
                              list (string * list Models.PrometheusRuleGroup))
    (h : RuleHandler) (uid : string) (r : Grizzly.Resource) (w w' : world) :
  GetByUID rangeMap h uid w = (Done (Ok r), w') ->
  exists namespace group,
    uid = namespace +:+ "." +:+ Models.Name group
    /\ Strings.Contains namespace "." = false
    /\ r = fetched h namespace group
    /\ w' = listedOnce w.
Proof.
  unfold GetByUID. rewrite getRemoteRuleGroup_unfold.
  destruct (Strings.Cut uid ".") as [[ns nm]|] eqn:E; [|done].
  destruct (Cut_Some _ _ _ _ E) as [Huid Hns].
  destruct (Client.ListRules_answer (clientTool h) w) as [groupings|e];
    [|done].
  destruct (scanGroupings h ns nm (rangeMap groupings)) as [r'|] eqn:Hscan;
    [|done].
  destruct (scanGroupings_Some _ _ _ _ _ Hscan)
    as (groups & group & _ & _ & Hname & ->).
  intros [= <- <-]. exists ns, group. by rewrite Hname.
Qed.

(** X5. A resource that [GetByUID] returns for [uid] is one that the
    handler accepts and identifies by the same [uid]: [GetUID] on it gives
    [uid] back, [Validate] succeeds on it, and it has the handler's
    kind. *)
Theorem GetByUID_then_GetUID
    (rangeMap : gmap string (list Models.PrometheusRuleGroup) ->
                list (string * list Models.PrometheusRuleGroup))
    (h : RuleHandler) (uid : string) (r : Grizzly.Resource)
    (w w' w'' : world) :
  GetByUID rangeMap h uid w = (Done (Ok r), w') ->
  GetUID h r w'' = (Done (Ok uid), w'')
  /\ Validate h r w'' = (Done None, w'')
  /\ Grizzly.res_kind r = Kind h.
Proof.
  intros (ns & group & -> & _ & -> & _)%GetByUID_Ok.
  split; [apply fetched_GetUID|]. split; [apply fetched_Validate|done].
Qed.

Lemma GetByUID_then_GetUID_witness :
  let h := Sample.handler (Sample.serving Sample.remoteLatency) in
  let r := fetched h "teamA" (Models.mkGroup "latency" [VMap 1%positive]) in
  GetUID h r Sample.start = (Done (Ok "teamA.latency"), Sample.start)
  /\ Validate h r Sample.start = (Done None, Sample.start)
  /\ Grizzly.res_kind r = "PrometheusRuleGroup".
Proof.
  intros h r.
  apply (GetByUID_then_GetUID map_to_list h "teamA.latency" r Sample.start
           (listedOnce Sample.start) Sample.start).
  by vm_compute.
Defined.

(** X6. What the lookup returns does not depend on the order in which the
    entries of the remote grouping are visited: two orders of visit give
    the same result for [GetByUID] and for [GetRemote]. *)
Theorem lookup_whatever_the_order
    (rangeMap1 rangeMap2 :
       gmap string (list Models.PrometheusRuleGroup) ->
       list (string * list Models.PrometheusRuleGroup))
    (h : RuleHandler) (uid : string) (resource : Grizzly.Resource)
    (w : world) :
  (forall m, rangeMap1 m ≡ₚ map_to_list m) ->
  (forall m, rangeMap2 m ≡ₚ map_to_list m) ->
  GetByUID rangeMap1 h uid w = GetByUID rangeMap2 h uid w
  /\ GetRemote rangeMap1 h resource w = GetRemote rangeMap2 h resource w.
Proof.
  intros Hperm1 Hperm2.
  assert (forall uid', getRemoteRuleGroup rangeMap1 h uid' w
                       = getRemoteRuleGroup rangeMap2 h uid' w) as Hsame.
  { intros uid'. rewrite !getRemoteRuleGroup_unfold.
    destruct (Strings.Cut uid' ".") as [[ns nm]|]; [|done].
    destruct (Client.ListRules_answer (clientTool h) w) as [groupings|e];
      [|done].
    by rewrite (scanGroupings_lookup rangeMap1 Hperm1),
               (scanGroupings_lookup rangeMap2 Hperm2). }
  split; apply Hsame.
Qed.

Lemma lookup_whatever_the_order_witness :
  let h := Sample.handler (Sample.serving Sample.remote) in
  GetByUID map_to_list h "teamB.g3" Sample.start
  = GetByUID Further.backwards h "teamB.g3" Sample.start
  /\ GetRemote map_to_list h Sample.latency Sample.start
     = GetRemote Further.backwards h Sample.latency Sample.start.
Proof.
  intros h.
  apply (lookup_whatever_the_order map_to_list Further.backwards h
           "teamB.g3" Sample.latency Sample.start).
  - reflexivity.
  - intros m. apply reverse_Permutation.
Defined.

(** X7. An identifier that [ListRemote] lists is one that [GetByUID] takes
    without panicking, the remote grouping being the same; when no
    namespace of the grouping has a dot, [GetByUID] finds a group for it,
    and the resource returned has that identifier. *)
Theorem listed_ids_are_found
    (rangeMap : gmap string (list Models.PrometheusRuleGroup) ->
                list (string * list Models.PrometheusRuleGroup))
    (h : RuleHandler)
    (groupings : gmap string (list Models.PrometheusRuleGroup))
    (w w2 : world) :
  (forall m, rangeMap m ≡ₚ map_to_list m) ->
  Client.ListRules_answer (clientTool h) w = Ok groupings ->
  Client.ListRules_answer (clientTool h) w2 = Ok groupings ->
  exists IDs,
    ListRemote rangeMap h w = (Done (Ok IDs), listedOnce w)
    /\ forall uid,
         uid ∈ IDs ->
         (exists answer,
            GetByUID rangeMap h uid w2 = (Done answer, listedOnce w2))
         /\ ((forall namespace,
                is_Some (groupings !! namespace) ->
                Strings.Contains namespace "." = false) ->
             exists r,
               GetByUID rangeMap h uid w2 = (Done (Ok r), listedOnce w2)
               /\ GetUID h r w2 = (Done (Ok uid), w2)).
Proof.
  intros Hperm Hw Hw2. unfold ListRemote, GetByUID.
  rewrite getRemoteRuleGroupList_unfold, Hw.
  eexists. split; [reflexivity|]. intros uid Huid.
  rewrite Hperm in Huid.
  apply elem_of_compositeIDs in Huid
    as (ns & groups & group & Hlookup & Hgroup & ->).
  rewrite getRemoteRuleGroup_unfold, Hw2. split.
  - destruct (Strings.Cut (ns +:+ "." +:+ Models.Name group) ".")
      as [[ns' nm']|] eqn:E; [by eexists|].
    apply Cut_None in E.
    change (Strings.Contains
              (ns +:+ String "."%char (Models.Name group)) "." = false)
      in E.
    by rewrite Contains_app in E.
  - intros Hdots. rewrite Cut_uid by (apply Hdots; by eexists).
    rewrite (scanGroupings_lookup rangeMap Hperm), Hlookup.
    destruct (scanGroups_exists h ns (Models.Name group) groups group
                Hgroup eq_refl) as (group' & _ & Hname & Hscan).
    rewrite Hscan. exists (fetched h ns group'). split; [done|].
    rewrite <- Hname. apply fetched_GetUID.
Qed.

Lemma listed_ids_are_found_witness :
  let h := Sample.handler (Sample.serving Sample.remote) in
  exists r,
    GetByUID map_to_list h "teamB.g3" (listedOnce Sample.start)
    = (Done (Ok r), listedOnce (listedOnce Sample.start))
    /\ GetUID h r (listedOnce Sample.start)
       = (Done (Ok "teamB.g3"), listedOnce Sample.start).
Proof.
  intros h.
  destruct (listed_ids_are_found map_to_list h Sample.remote Sample.start
              (listedOnce Sample.start)) as (IDs & HIDs & Hfound);
    try reflexivity.
  assert (IDs = ["teamA.g1"; "teamB.g2"; "teamB.g3"]) as ->.
  { vm_compute in HIDs. by injection HIDs as <-. }
  apply (Hfound "teamB.g3"); [by do 2 right; left|].
  intros namespace [groups Hgroups]. unfold Sample.remote in Hgroups.
  destruct (decide (namespace = "teamA")) as [->|Hne]; [reflexivity|].
  rewrite lookup_insert_ne in Hgroups by done.
  apply lookup_singleton_Some in Hgroups as [<- _]. reflexivity.
Defined.

(** ** Composite identifiers and dots *)

Lemma append_assoc (a b c : string) : (a +:+ b) +:+ c = a +:+ (b +:+ c).
Proof.
  induction a as [|x a IH]; [reflexivity|].
  rewrite !append_cons. by rewrite IH.
Qed.

Lemma append_inj_r (a x y : string) : a +:+ x = a +:+ y -> x = y.
Proof.
  induction a as [|c a IH]; [done|].
  rewrite !append_cons. intros [= H]. by apply IH.
Qed.

Lemma uid_inj (N1 N2 X1 X2 : string) :
  Strings.Contains N1 "." = false ->
  Strings.Contains N2 "." = false ->
  N1 +:+ "." +:+ X1 = N2 +:+ "." +:+ X2 ->
  N1 = N2 /\ X1 = X2.
Proof.
  intros H1 H2 Heq.
  pose proof (Cut_uid N1 X1 H1) as Hcut. rewrite Heq in Hcut.
  rewrite (Cut_uid N2 X2 H2) in Hcut. by injection Hcut as -> ->.
Qed.

(** X8. Two resources whose namespaces have no dot get the same identifier
    from [GetUID] only when they have the same namespace and the same
    name. With dots in namespaces the identifier is ambiguous: the resource
    named [X.Y] under [N] and the resource named [Y] under [N.X] get the
    same one. *)
Theorem GetUID_shared (h : RuleHandler) (w : world) :
  (forall (r1 r2 : Grizzly.Resource) (N1 N2 : string),
     Grizzly.res_metadata r1 !! "namespace" = Some N1 ->
     Grizzly.res_metadata r2 !! "namespace" = Some N2 ->
     Strings.Contains N1 "." = false ->
     Strings.Contains N2 "." = false ->
     GetUID h r1 w = GetUID h r2 w ->
     N1 = N2 /\ Grizzly.Name r1 = Grizzly.Name r2)
  /\ (forall (N X Y apiVersion kind : string)
             (metadata : gmap string string) (spec : gmap string value),
        GetUID h (Grizzly.mkResource apiVersion kind (X +:+ "." +:+ Y)
                    (<["namespace" := N]> metadata) spec) w
        = GetUID h (Grizzly.mkResource apiVersion kind Y
                      (<["namespace" := N +:+ "." +:+ X]> metadata) spec) w).
Proof.
  split.
  - intros r1 r2 N1 N2 Hr1 Hr2 HN1 HN2.
    rewrite (GetUID_lookup h r1 w N1 Hr1), (GetUID_lookup h r2 w N2 Hr2).
    intros [= Heq]. by apply uid_inj.
  - intros N X Y apiVersion kind metadata spec.
    rewrite (GetUID_lookup h _ w N) by apply lookup_insert_eq.
    rewrite (GetUID_lookup h _ w (N +:+ "." +:+ X))
      by apply lookup_insert_eq.
    simpl. by rewrite append_assoc.
Qed.

Lemma GetUID_shared_witness :
  let h := Sample.handler Sample.failing in
  "teamA" = "teamA"
  /\ Grizzly.Name Sample.latency
     = Grizzly.Name
         (fetched h "teamA" (Models.mkGroup "latency" [VMap 1%positive])).
Proof.
  intros h.
  apply (proj1 (GetUID_shared h Sample.start) Sample.latency
           (fetched h "teamA" (Models.mkGroup "latency" [VMap 1%positive]))
           "teamA" "teamA"); reflexivity.
Defined.

Lemma compositeIDs_NoDup (namespace : string)
    (groups : list Models.PrometheusRuleGroup) :
  NoDup (Models.Name <$> groups) ->
  NoDup (compositeIDs (namespace, groups)).
Proof.
  intros Hnames.
  assert (compositeIDs (namespace, groups)
          = (fun n => namespace +:+ "." +:+ n) <$> (Models.Name <$> groups))
    as -> by (by rewrite <- list_fmap_compose).
  apply NoDup_fmap_2_strong; [|done].
  intros x y _ _ Heq. by apply append_inj_r, append_inj_r in Heq.
Qed.

(** X9. When no namespace of the remote grouping has a dot and no
    namespace holds two groups of the same name, [ListRemote] lists no
    identifier twice. *)
Theorem ListRemote_NoDup
    (rangeMap : gmap string (list Models.PrometheusRuleGroup) ->
                list (string * list Models.PrometheusRuleGroup))
    (h : RuleHandler)
    (groupings : gmap string (list Models.PrometheusRuleGroup))
    (w : world) :
  (forall m, rangeMap m ≡ₚ map_to_list m) ->
  Client.ListRules_answer (clientTool h) w = Ok groupings ->
  (forall namespace groups,
     groupings !! namespace = Some groups ->
     Strings.Contains namespace "." = false
     /\ NoDup (Models.Name <$> groups)) ->
  exists IDs,
    ListRemote rangeMap h w = (Done (Ok IDs), listedOnce w) /\ NoDup IDs.
Proof.
  intros Hperm Hw Hgroupings. unfold ListRemote.
  rewrite getRemoteRuleGroupList_unfold, Hw.
  eexists. split; [reflexivity|]. rewrite Hperm.
  apply NoDup_bind.
  - intros [ns1 groups1] [ns2 groups2] uid
      Hin1%elem_of_map_to_list Hin2%elem_of_map_to_list Huid1 Huid2.
    apply list_elem_of_fmap in Huid1 as (g1 & -> & _).
    apply list_elem_of_fmap in Huid2 as (g2 & Heq & _). simpl in Heq.
    destruct (Hgroupings _ _ Hin1) as [Hdot1 _].
    destruct (Hgroupings _ _ Hin2) as [Hdot2 _].
    destruct (uid_inj _ _ _ _ Hdot1 Hdot2 Heq) as [-> _]. congruence.
  - intros [ns groups] Hin%elem_of_map_to_list.
    apply compositeIDs_NoDup. by apply (Hgroupings ns).
  - apply NoDup_map_to_list.
Qed.

Lemma ListRemote_NoDup_witness :
  exists IDs,
    ListRemote map_to_list (Sample.handler (Sample.serving Sample.remote))
      Sample.start = (Done (Ok IDs), listedOnce Sample.start)
    /\ NoDup IDs.
Proof.
  apply (ListRemote_NoDup map_to_list
           (Sample.handler (Sample.serving Sample.remote)) Sample.remote
           Sample.start); try reflexivity.
  intros namespace groups Hgroups. unfold Sample.remote in Hgroups.
  destruct (decide (namespace = "teamA")) as [->|Hne].
  - rewrite lookup_insert_eq in Hgroups. injection Hgroups as <-.
    split; [reflexivity|]. apply NoDup_singleton.
  - rewrite lookup_insert_ne in Hgroups by done.
    apply lookup_singleton_Some in Hgroups as [<- <-].
    split; [reflexivity|]. apply NoDup_cons. split; [|apply NoDup_singleton].
    by intros ?%list_elem_of_singleton.
Defined.

(** X10. For a resource whose namespace has a dot, [Add] pushes the group
    under the whole namespace, but [GetRemote] looks for it under the text
    before the first dot, with the rest of the namespace put in front of
    the name: it fails with [ErrNotFound] unless the remote grouping holds
    such a group there, even when it holds the resource's group under the
    resource's namespace. *)
Theorem GetRemote_dotted_namespace
    (rangeMap : gmap string (list Models.PrometheusRuleGroup) ->
                list (string * list Models.PrometheusRuleGroup))
    (h : RuleHandler) (resource : Grizzly.Resource) (N' rest : string)
    (groupings : gmap string (list Models.PrometheusRuleGroup))
    (w : world) :
  (forall m, rangeMap m ≡ₚ map_to_list m) ->
  Strings.Contains N' "." = false ->
  Grizzly.res_metadata resource !! "namespace"
  = Some (N' +:+ "." +:+ rest) ->
  Client.ListRules_answer (clientTool h) w = Ok groupings ->
  (forall groups group,
     groupings !! N' = Some groups -> group ∈ groups ->
     Models.Name group <> rest +:+ "." +:+ Grizzly.Name resource) ->
  GetRemote rangeMap h resource w = (Done (Err ErrNotFound), listedOnce w)
  /\ (forall locs,
        Grizzly.Spec resource !! "rules" = Some (VSlice (VMap <$> locs)) ->
        trace (Add h resource w).2
        = trace w ++ [CreateRulesCall
                        (Models.mkGrouping (N' +:+ "." +:+ rest)
                           [Models.mkGroup (Grizzly.Name resource)
                              (VMap <$> locs)])]).
Proof.
  intros Hperm HN' Hmeta Hw Hnone. split.
  - unfold GetRemote. rewrite getRemoteRuleGroup_unfold, Sprintf_uid.
    unfold Grizzly.GetMetadata. rewrite Hmeta. simpl.
    rewrite !append_assoc, Cut_uid by done. rewrite Hw.
    rewrite (scanGroupings_lookup rangeMap Hperm).
    destruct (groupings !! N') as [groups|] eqn:Hlookup; [|done].
    rewrite scanGroups_none; [done|].
    apply Forall_forall. intros group Hin. by apply (Hnone groups).
  - intros locs Hrules. unfold Add.
    rewrite (writeRuleGroup_rules h resource locs w Hrules). simpl.
    unfold pushed, Grizzly.GetMetadata. by rewrite Hmeta.
Qed.

Lemma GetRemote_dotted_namespace_witness :
  let h := Sample.handler (Sample.serving Further.remoteDotted) in
  Further.remoteDotted !! "team.a" = Some [Models.mkGroup "g" []]
  /\ GetRemote map_to_list h Further.dottedNamespace Sample.start
     = (Done (Err ErrNotFound), listedOnce Sample.start)
  /\ trace (Add h Further.dottedNamespace Sample.start).2
     = [CreateRulesCall (Models.mkGrouping "team.a" [Models.mkGroup "g" []])].
Proof.
  intros h. split; [reflexivity|].
  destruct (GetRemote_dotted_namespace map_to_list h Further.dottedNamespace
              "team" "a" Further.remoteDotted Sample.start)
    as [Hget Hadd]; try reflexivity.
  - intros groups group Hgroups. unfold Further.remoteDotted in Hgroups.
    by rewrite lookup_singleton_ne in Hgroups.
  - split; [exact Hget|]. apply (Hadd []). reflexivity.
Defined.

(** ** Pushing back what was fetched *)

Lemma rewritten_fixed (locs : list loc) (hp : gmap loc (gmap string value)) :
  (forall l m, l ∈ locs -> hp !! l = Some m -> translated m = m) ->
  rewritten locs hp = hp.
Proof.
  induction locs as [|l0 locs IH]; intros Hfixed; [done|].
  change (rewritten (l0 :: locs) hp)
    with (rewritten locs (alter translated l0 hp)).
  assert (alter translated l0 hp = hp) as ->.
  { destruct (hp !! l0) as [m|] eqn:Hl0; [|by apply alter_absent].
    rewrite (alter_present _ _ _ _ Hl0).
    rewrite (Hfixed l0 m) by (done || by left). by apply insert_id. }
  apply IH. intros l m Hl. apply Hfixed. by right.
Qed.

(** X11. Pushing a fetched resource back sends what was fetched: when the
    rules of a resource returned by [GetByUID] are mappings with a type
    that is neither ["recording"] nor ["alerting"], or none, and no
    ["query"], as rules in the remote shape are, [Add] pushes the group
    under the same namespace, with the same name and the same rule
    objects, and writes to no map object. *)
Theorem fetch_then_push
    (rangeMap : gmap string (list Models.PrometheusRuleGroup) ->
                list (string * list Models.PrometheusRuleGroup))
    (h : RuleHandler) (uid : string) (r : Grizzly.Resource)
    (locs : list loc) (w0 w1 w : world) :
  GetByUID rangeMap h uid w0 = (Done (Ok r), w1) ->
  Grizzly.Spec r !! "rules" = Some (VSlice (VMap <$> locs)) ->
  (forall l m,
     l ∈ locs -> heap w !! l = Some m ->
     eq_string (index m "type") "recording" = false
     /\ eq_string (index m "type") "alerting" = false
     /\ index m "query" = VNil) ->
  exists namespace name,
    uid = namespace +:+ "." +:+ name
    /\ let grouping :=
         Models.mkGrouping namespace
           [Models.mkGroup name (VMap <$> locs)] in
       Add h r w
       = (Done (Client.CreateRules_answer (clientTool h) w grouping),
          pushedOnce grouping w).
Proof.
  intros (ns & group & -> & _ & -> & _)%GetByUID_Ok Hrules Hshape.
  exists ns, (Models.Name group). split; [done|]. cbv zeta. unfold Add.
  rewrite (writeRuleGroup_rules h _ locs w Hrules).
  rewrite rewritten_fixed, world_eta.
  - unfold pushed, Grizzly.GetMetadata, fetched. simpl.
    by rewrite lookup_singleton_eq.
  - intros l m Hl Hm. destruct (Hshape l m Hl Hm) as (H1 & H2 & H3).
    by apply translated_untyped.
Qed.

Lemma fetch_then_push_witness :
  let h := Sample.handler (Sample.serving Further.remoteStored) in
  let w := mkWorld Further.remoteStore [] in
  exists r namespace name,
    GetByUID map_to_list h "teamA.latency" w = (Done (Ok r), listedOnce w)
    /\ "teamA.latency" = namespace +:+ "." +:+ name
    /\ Add h r (listedOnce w)
       = (Done None,
          pushedOnce (Models.mkGrouping namespace
                        [Models.mkGroup name [VMap 3%positive]])
            (listedOnce w)).
Proof.
  intros h w.
  exists (fetched h "teamA" (Models.mkGroup "latency" [VMap 3%positive])).
  destruct (fetch_then_push map_to_list h "teamA.latency"
              (fetched h "teamA" (Models.mkGroup "latency" [VMap 3%positive]))
              [3%positive] w (listedOnce w) (listedOnce w))
    as (namespace & name & Huid & Hadd).
  - by vm_compute.
  - reflexivity.
  - intros l m Hl Hm. apply list_elem_of_singleton in Hl as ->.
    assert (m = Further.remoteRule) as ->.
    { change (Further.remoteStore !! 3%positive = Some m) in Hm.
      unfold Further.remoteStore in Hm.
      rewrite lookup_singleton_eq in Hm. by injection Hm. }
    by vm_compute.
  - exists namespace, name. split; [by vm_compute|]. split; [exact Huid|].
    exact Hadd.
Defined.

(** ** File names *)

Lemma ReplaceAll_absent (s : string) (sep : ascii) :
  Strings.Contains s sep = false -> Strings.ReplaceAll s sep "-" = s.
Proof.
  induction s as [|c s IH]; [done|].
  rewrite Contains_cons, ReplaceAll_cons.
  intros [Hc Hs]%orb_false_elim. unfold safeByte. by rewrite Hc, IH.
Qed.

Lemma ReplaceAll_again (s : string) (sep : ascii) :
  Strings.ReplaceAll (Strings.ReplaceAll s sep "-") sep "-"
  = Strings.ReplaceAll s sep "-".
Proof.
  induction s as [|c s IH]; [done|].
  rewrite !ReplaceAll_cons, IH. f_equal. unfold safeByte.
  destruct (Ascii.eqb c sep) eqn:Hc; [|by rewrite Hc].
  by destruct (Ascii.eqb "-" sep).
Qed.

(** X12. A name without path separator goes into the file path as it is.
    A name with separators gets the path of the name in which hyphens
    stand for them, so that two resources whose names differ only by a
    separator against a hyphen are given the same file. *)
Theorem ResourceFilePath_names (sep : ascii) (h : RuleHandler)
    (resource resource' : Grizzly.Resource) (filetype : string) (w : world) :
  (Strings.Contains (Grizzly.Name resource) sep = false ->
   ResourceFilePath sep h resource filetype w
   = (Done ("prometheus/rules-" +:+ Grizzly.Name resource
            +:+ "." +:+ filetype), w))
  /\ (Grizzly.Name resource'
      = Strings.ReplaceAll (Grizzly.Name resource) sep "-" ->
      ResourceFilePath sep h resource' filetype w
      = ResourceFilePath sep h resource filetype w).
Proof.
  unfold ResourceFilePath, ret. split.
  - intros Habsent. by rewrite ReplaceAll_absent, Sprintf_pattern.
  - intros ->. by rewrite ReplaceAll_again.
Qed.

Lemma ResourceFilePath_names_witness :
  let h := Sample.handler Sample.failing in
  let slash := Grizzly.mkResource "v1" "PrometheusRuleGroup" "a/b" ∅ ∅ in
  let hyphen := Grizzly.mkResource "v1" "PrometheusRuleGroup" "a-b" ∅ ∅ in
  ResourceFilePath "/" h Sample.dotted "json" Sample.start
  = (Done "prometheus/rules-latency.p99.json", Sample.start)
  /\ ResourceFilePath "/" h hyphen "yaml" Sample.start
     = ResourceFilePath "/" h slash "yaml" Sample.start.
Proof.
  intros h slash hyphen. split.
  - apply (proj1 (ResourceFilePath_names "/" h Sample.dotted Sample.dotted
                    "json" Sample.start)).
    reflexivity.
  - apply (proj2 (ResourceFilePath_names "/" h slash hyphen "yaml"
                    Sample.start)).
    reflexivity.
Defined.

(** ** [GetRemote] and [GetUID] *)

(** X13. For a resource with a namespace, [GetRemote] is [GetByUID] at
    the identifier that [GetUID] computes for it, and a resource that it
    returns has that same identifier, whether or not the namespace has
    dots. *)
Theorem GetRemote_by_GetUID
    (rangeMap : gmap string (list Models.PrometheusRuleGroup) ->
                list (string * list Models.PrometheusRuleGroup))
    (h : RuleHandler) (resource : Grizzly.Resource) (N : string)
    (w : world) :
  Grizzly.res_metadata resource !! "namespace" = Some N ->
  exists uid,
    GetUID h resource w = (Done (Ok uid), w)
    /\ GetRemote rangeMap h resource w = GetByUID rangeMap h uid w
    /\ forall r' w',
         GetRemote rangeMap h resource w = (Done (Ok r'), w') ->
         GetUID h r' w = (Done (Ok uid), w).
Proof.
  intros Hmeta. exists (N +:+ "." +:+ Grizzly.Name resource).
  split; [by apply GetUID_lookup|].
  assert (GetRemote rangeMap h resource w
          = GetByUID rangeMap h (N +:+ "." +:+ Grizzly.Name resource) w)
    as ->.
  { unfold GetRemote, GetByUID, Grizzly.GetMetadata.
    by rewrite Sprintf_uid, Hmeta. }
  split; [done|].
  intros r' w' (ns & group & -> & _ & -> & _)%GetByUID_Ok.
  apply fetched_GetUID.
Qed.

Lemma GetRemote_by_GetUID_witness :
  let h := Sample.handler (Sample.serving Sample.remoteLatency) in
  exists uid,
    GetUID h Sample.latency Sample.start = (Done (Ok uid), Sample.start)
    /\ GetRemote map_to_list h Sample.latency Sample.start
       = GetByUID map_to_list h uid Sample.start
    /\ forall r' w',
         GetRemote map_to_list h Sample.latency Sample.start
         = (Done (Ok r'), w') ->
         GetUID h r' Sample.start = (Done (Ok uid), Sample.start).
Proof.
  intros h.
  apply (GetRemote_by_GetUID map_to_list h Sample.latency "teamA"
           Sample.start).
  reflexivity.
Defined.
